(** * Personal finance ledger: the record store of [main.py]

    A shallow embedding of [AccountManager] (load, save, append, edit,
    search, balance, the two input validators), of the menu script around
    it and of the tests of [test.py], together with the parts of the
    Python runtime the code leans on: [str] as a sequence of code points,
    the [re] patterns, the [csv] writer and reader of the default dialect,
    list item assignment, binary64 arithmetic, and the console. *)

From Stdlib Require Import ZArith NArith Lia Bool.
From Stdlib Require Import Strings.String Strings.Ascii.
From Stdlib Require Import Floats.SpecFloat.
From stdpp Require Import base list.

Local Open Scope N_scope.

(** ** Text

    A Python [str] is a sequence of Unicode code points. *)

Definition char := N.
Definition text := list char.

Fixpoint bytes_of (s : string) : list N :=
  match s with
  | EmptyString => []
  | String a t => N_of_ascii a :: bytes_of t
  end.

(** String literals of this file are UTF-8, as the source file is. *)
Fixpoint utf8_decode (bs : list N) : text :=
  match bs with
  | [] => []
  | b0 :: t0 =>
    if b0 <? 128 then b0 :: utf8_decode t0
    else match t0 with
    | [] => []
    | b1 :: t1 =>
      if b0 <? 224 then ((b0 mod 32) * 64 + b1 mod 64) :: utf8_decode t1
      else match t1 with
      | [] => []
      | b2 :: t2 =>
        if b0 <? 240
        then (((b0 mod 16) * 64 + b1 mod 64) * 64 + b2 mod 64) :: utf8_decode t2
        else match t2 with
        | [] => []
        | b3 :: t3 =>
          ((((b0 mod 8) * 64 + b1 mod 64) * 64 + b2 mod 64) * 64 + b3 mod 64)
            :: utf8_decode t3
        end
      end
    end
  end.

Definition utf8 (s : string) : text := utf8_decode (bytes_of s).
Arguments utf8 : simpl never.

Definition chr (a : ascii) : char := N_of_ascii a.

Definition text_eqb (a b : text) : bool := bool_decide (a = b).

(** ** The Unicode character database

    [\d], [int()] and [float()] consult the database for decimal digits
    and white space.  On ASCII the answers are written out below; for code
    points from 128 on they are left to the table in use, so every
    statement of this file holds for whichever version of the database the
    interpreter ships. *)

Class Unicode := {
  uni_decimal : char -> option N;  (* Py_UNICODE_TODECIMAL, code points >= 128 *)
  uni_space : char -> bool         (* Py_UNICODE_ISSPACE, code points >= 128 *)
}.

(** A table with no decimal digit and no white space beyond ASCII; the
    closed examples on ASCII input are evaluated with it. *)
Definition ascii_table : Unicode :=
  {| uni_decimal := fun _ => None; uni_space := fun _ => false |}.

Section Characters.
Context {U : Unicode}.

Definition to_decimal (c : char) : option N :=
  if c <? 128
  then if (48 <=? c) && (c <=? 57) then Some (c - 48) else None
  else uni_decimal c.

Definition is_decimal (c : char) : bool :=
  match to_decimal c with Some _ => true | None => false end.
End Characters.

(** ** Regular expressions, as far as the two patterns use them *)

Inductive item :=
| One (c : char)           (* a *)
| Span (lo hi : char)      (* a-b inside a set *)
| Decimal.                 (* \d *)

Inductive regex :=
| Among (xs : list item)   (* one character: a literal, \d, or a set [...] *)
| Seq (r1 r2 : regex)
| Alt (r1 r2 : regex)
| Times (n : nat) (r : regex)   (* r{n} *)
| Plus (r : regex)              (* r+ , greedy *)
| Bol                           (* ^ *)
| Eol.                          (* $ *)

Definition Chr (a : ascii) : regex := Among [One (chr a)].
Definition Dig : regex := Among [Decimal].

Record cursor := Cursor { pos : nat; rest : text }.

Section Matching.
Context {U : Unicode}.

Definition item_has (c : char) (x : item) : bool :=
  match x with
  | One a => c =? a
  | Span lo hi => (lo <=? c) && (c <=? hi)
  | Decimal => is_decimal c
  end.

Definition among (xs : list item) (c : char) : bool := existsb (item_has c) xs.

Definition advance (p : char -> bool) (k : cursor) : list cursor :=
  match rest k with
  | a :: t => if p a then [Cursor (S (pos k)) t] else []
  | [] => []
  end.

(** [$] without MULTILINE: the end of the string, or just before a line
    feed that ends the string. *)
Definition at_eol (k : cursor) : bool :=
  match rest k with
  | [] => true
  | [c] => c =? 10
  | _ => false
  end.

(** [r{n}] and [r+], given every way [r] itself can match ([f]).  The
    fuel of [greedy] bounds the number of rounds by the characters left,
    which is all a round that consumes something can use. *)
Definition iterate (f : cursor -> list cursor) : nat -> cursor -> list cursor :=
  fix go (n : nat) (k : cursor) : list cursor :=
    match n with
    | O => [k]
    | S n' => flat_map (go n') (f k)
    end.

Definition greedy (f : cursor -> list cursor) : nat -> cursor -> list cursor :=
  fix go (fuel : nat) (k : cursor) : list cursor :=
    match fuel with
    | O => []
    | S fuel' => flat_map (fun k1 => go fuel' k1 ++ [k1]) (f k)
    end.

(** Every way [r] can match at a cursor, the backtracking engine's
    preferred way first. *)
Fixpoint run (r : regex) (k : cursor) : list cursor :=
  match r with
  | Among xs => advance (among xs) k
  | Seq r1 r2 => flat_map (run r2) (run r1 k)
  | Alt r1 r2 => run r1 k ++ run r2 k
  | Times n r1 => iterate (run r1) n k
  | Plus r1 => greedy (run r1) (S (length (rest k))) k
  | Bol => if Nat.eqb (pos k) 0 then [k] else []
  | Eol => if at_eol k then [k] else []
  end.

(** [pattern.match(s)]: a match starting at position 0, or [None]. *)
Definition re_match (r : regex) (s : text) : option nat :=
  match run r (Cursor 0 s) with
  | k :: _ => Some (pos k)
  | [] => None
  end.

(** Truth value of the match object in [if PATTERN.match(s):]. *)
Definition matches (r : regex) (s : text) : bool :=
  match re_match r s with Some _ => true | None => false end.

(** [DATE_PATTERN = re.compile(r"\d{4}-(0[1-9]|1[0-2])-(0[1-9]|[12]\d|3[01])")] *)
Definition DATE_PATTERN : regex :=
  Seq (Times 4 Dig)
 (Seq (Chr "-")
 (Seq (Alt (Seq (Chr "0") (Among [Span (chr "1") (chr "9")]))
           (Seq (Chr "1") (Among [Span (chr "0") (chr "2")])))
 (Seq (Chr "-")
      (Alt (Seq (Chr "0") (Among [Span (chr "1") (chr "9")]))
      (Alt (Seq (Among [One (chr "1"); One (chr "2")]) Dig)
           (Seq (Chr "3") (Among [One (chr "0"); One (chr "1")]))))))).

(** [AMOUNT_PATTERN = re.compile(r"^\d+$")] *)
Definition AMOUNT_PATTERN : regex := Seq Bol (Seq (Plus Dig) Eol).
End Matching.

(** ** Values, exceptions

    What the rows hold: [str], and the [int] an amount is before it is
    written ([Union[str, float]] in the annotations; every amount the program
    produces comes from [int(amount_input)]). *)

Inductive value :=
| Str (s : text)
| Int (n : Z).

Inductive exn :=
| FileNotFoundError
| IndexError
| ValueError
| OverflowError
| EOFError
| CsvError.

Inductive result (A : Type) :=
| Ok (a : A)
| Raise (e : exn).
Arguments Ok {A} a.
Arguments Raise {A} e.

#[global] Instance result_ret : MRet result := fun A a => Ok a.
#[global] Instance result_bind : MBind result := fun A B f m =>
  match m with
  | Ok a => f a
  | Raise e => Raise e
  end.
#[global] Instance result_fmap : FMap result := fun A B f m =>
  match m with
  | Ok a => Ok (f a)
  | Raise e => Raise e
  end.

(** [a == b] on values; a [str] never equals an [int]. *)
Definition value_eqb (a b : value) : bool :=
  match a, b with
  | Str s, Str t => text_eqb s t
  | Int m, Int n => Z.eqb m n
  | _, _ => false
  end.

(** [l[i]] and [l[i] = x], negative indices counting from the end. *)
Definition norm_index {A} (l : list A) (i : Z) : option nat :=
  let n := Z.of_nat (length l) in
  let j := if (i <? 0)%Z then (i + n)%Z else i in
  if (j <? 0)%Z || (n <=? j)%Z then None else Some (Z.to_nat j).

Definition getitem {A} (l : list A) (i : Z) : result A :=
  match norm_index l i with
  | Some j => match l !! j with Some x => Ok x | None => Raise IndexError end
  | None => Raise IndexError
  end.

Definition setitem {A} (l : list A) (i : Z) (x : A) : result (list A) :=
  match norm_index l i with
  | Some j => Ok (<[j := x]> l)
  | None => Raise IndexError
  end.

(** ** Numbers and their text *)

(** [str(n)] for a non-negative [n]: decimal digits, most significant first. *)
Fixpoint dec_digits (fuel : nat) (n : N) (acc : text) : text :=
  match fuel with
  | O => acc
  | S fuel' =>
    let acc' := (48 + n mod 10) :: acc in
    if n <? 10 then acc' else dec_digits fuel' (n / 10) acc'
  end.

Definition str_of_N (n : N) : text := dec_digits (S (N.size_nat n)) n [].

Definition str_of_int (n : Z) : text :=
  match n with
  | Z0 => str_of_N 0
  | Zpos p => str_of_N (Npos p)
  | Zneg p => 45 :: str_of_N (Npos p)
  end.

(** [str(v)], as the csv writer applies it to a field. *)
Definition py_str (v : value) : text :=
  match v with
  | Str s => s
  | Int n => str_of_int n
  end.

(** Binary64, the precision of Python's [float]. *)
Definition float := spec_float.
Definition fadd : float -> float -> float := SFadd 53 1024.
Definition fsub : float -> float -> float := SFsub 53 1024.
Definition float_of_Z (n : Z) : float := binary_normalize 53 1024 n 0 false.

(** The binary64 nearest to [m * 10^e] (ties to even), for [m > 0]. *)
Definition round_decimal (sign : bool) (m : positive) (e : Z) : float :=
  if (0 <=? e)%Z
  then binary_round 53 1024 sign (m * Z.to_pos (10 ^ e)) 0
  else
    let '(q, e2, l) :=
      SFdiv_core_binary 53 1024 (Zpos m) 0 (10 ^ (- e))%Z 0 in
    binary_round_aux 53 1024 sign q e2 l.

Definition ascii_digit (c : char) : bool := (48 <=? c) && (c <=? 57).
Definition ascii_space (c : char) : bool := ((9 <=? c) && (c <=? 13)) || (c =? 32).
Definition lower (c : char) : char := if (65 <=? c) && (c <=? 90) then c + 32 else c.

(** Value of a run of ASCII digits. *)
Definition digits_value (ds : text) : N :=
  fold_left (fun acc d => 10 * acc + (d - 48)) ds 0.

Fixpoint span (p : char -> bool) (s : text) : text * text :=
  match s with
  | c :: t => if p c then let '(a, b) := span p t in (c :: a, b) else ([], s)
  | [] => ([], [])
  end.

Fixpoint drop_while (p : char -> bool) (s : text) : text :=
  match s with
  | c :: t => if p c then drop_while p t else s
  | [] => []
  end.

Definition strip (s : text) : text :=
  rev (drop_while ascii_space (rev (drop_while ascii_space s))).

(** Underscores may only stand between two digits; they are dropped. *)
Fixpoint drop_underscores (prev : char) (s : text) : option text :=
  match s with
  | [] => if prev =? 95 then None else Some []
  | c :: t =>
    if c =? 95
    then if ascii_digit prev then drop_underscores c t else None
    else if (prev =? 95) && negb (ascii_digit c) then None
    else match drop_underscores c t with
         | Some r => Some (c :: r)
         | None => None
         end
  end.

Definition split_sign (s : text) : bool * text :=
  match s with
  | c :: t => if c =? 45 then (true, t) else if c =? 43 then (false, t) else (false, s)
  | [] => (false, [])
  end.

Fixpoint prefix_ci (p s : text) : option text :=
  match p, s with
  | [], _ => Some s
  | a :: p', c :: s' => if lower c =? a then prefix_ci p' s' else None
  | _ :: _, [] => None
  end.

(** The decimal grammar of [float()]: sign, digits with an optional point,
    optional exponent; the unread remainder is returned with the value. *)
Definition parse_decimal (s : text) : option (float * text) :=
  let '(sign, s0) := split_sign s in
  let '(ip, s1) := span ascii_digit s0 in
  let '(fp, s2) :=
    match s1 with
    | c :: t => if c =? 46 then span ascii_digit t else ([], s1)
    | [] => ([], s1)
    end in
  match ip ++ fp with
  | [] => None
  | ds =>
    let '(e, s3) :=
      match s2 with
      | c :: t =>
        if lower c =? 101 then
          let '(esign, t1) := split_sign t in
          match span ascii_digit t1 with
          | ([], _) => (0%Z, s2)
          | (eds, t2) =>
            let v := Z.of_N (digits_value eds) in
            ((if esign then - v else v)%Z, t2)
          end
        else (0%Z, s2)
      | [] => (0%Z, s2)
      end in
    match digits_value ds with
    | N0 => Some (S754_zero sign, s3)
    | Npos m => Some (round_decimal sign m (e - Z.of_nat (length fp)), s3)
    end
  end.

(** [inf], [infinity], [nan], any case, with an optional sign. *)
Definition parse_inf_or_nan (s : text) : option (float * text) :=
  let '(sign, s0) := split_sign s in
  match prefix_ci (utf8 "inf") s0 with
  | Some s1 =>
    match prefix_ci (utf8 "inity") s1 with
    | Some s2 => Some (S754_infinity sign, s2)
    | None => Some (S754_infinity sign, s1)
    end
  | None =>
    match prefix_ci (utf8 "nan") s0 with
    | Some s1 => Some (S754_nan, s1)
    | None => None
    end
  end.

Section Numbers.
Context {U : Unicode}.

(** Non-ASCII white space becomes a blank and a non-ASCII decimal digit
    its ASCII digit; anything else non-ASCII ends the text with [?]. *)
Fixpoint transform (s : text) : text :=
  match s with
  | [] => []
  | c :: t =>
    if c <? 127 then c :: transform t
    else if (128 <=? c) && uni_space c then 32 :: transform t
    else match (if 128 <=? c then uni_decimal c else None) with
         | Some d => (48 + d) :: transform t
         | None => [63]
         end
  end.

Definition to_ascii (s : text) : text :=
  if forallb (fun c => c <? 128) s then s else transform s.

Definition numeric_text (s : text) : option text :=
  match strip (to_ascii s) with
  | [] => None
  | c :: t => drop_underscores 0 (c :: t)
  end.

(** [float(s)] for a [str]. *)
Definition float_of_text (s : text) : result float :=
  match numeric_text s with
  | None => Raise ValueError
  | Some t =>
    match parse_decimal t with
    | Some (x, []) => Ok x
    | Some (_, _ :: _) => Raise ValueError
    | None =>
      match parse_inf_or_nan t with
      | Some (x, []) => Ok x
      | _ => Raise ValueError
      end
    end
  end.

(** [int(s)] for a [str], base 10. *)
Definition int_of_text (s : text) : result Z :=
  match numeric_text s with
  | None => Raise ValueError
  | Some t =>
    let '(sign, t0) := split_sign t in
    match span ascii_digit t0 with
    | (c :: ds, []) =>
      let v := Z.of_N (digits_value (c :: ds)) in
      Ok (if sign then - v else v)%Z
    | _ => Raise ValueError
    end
  end.

(** [float(v)]; an [int] converts with rounding to nearest, and overflows. *)
Definition py_float (v : value) : result float :=
  match v with
  | Str s => float_of_text s
  | Int n =>
    match float_of_Z n with
    | S754_infinity _ => Raise OverflowError
    | x => Ok x
    end
  end.
End Numbers.

(** ** The csv module, default (excel) dialect

    Delimiter comma, quote character the double quote, doubled inside a
    quoted field, no escape character, line terminator CR LF, minimal
    quoting, not strict
    (CPython 3.11 or later).  The reader's limit on the length of a
    field and the interpreter's limit on the length of integer strings are
    configuration, not behaviour, and are left out. *)

Definition COMMA : char := 44.
Definition QUOTE : char := 34.
Definition CR : char := 13.
Definition LF : char := 10.

(** *** Writer *)

Definition special (c : char) : bool :=
  (c =? COMMA) || (c =? QUOTE) || (c =? CR) || (c =? LF).

Definition double_quotes (f : text) : text :=
  flat_map (fun c => if c =? QUOTE then [QUOTE; QUOTE] else [c]) f.

Definition join_append (f : text) (quoted : bool) : text :=
  if quoted || existsb special f
  then QUOTE :: double_quotes f ++ [QUOTE]
  else f.

Fixpoint join (fs : list text) : text :=
  match fs with
  | [] => []
  | [f] => join_append f false
  | f :: fs' => join_append f false ++ COMMA :: join fs'
  end.

(** [writer.writerow(row)]: the text handed to [file.write]. *)
Definition writerow (row : list value) : text :=
  let fs := map py_str row in
  let rec := join fs in
  let rec :=
    match fs, rec with
    | _ :: _, [] => join_append [] true   (* a single empty field is quoted *)
    | _, _ => rec
    end in
  rec ++ [CR; LF].

Definition writerows (rows : list (list value)) : text := flat_map writerow rows.

(** *** Reader *)

Inductive parser_state :=
| START_RECORD
| START_FIELD
| IN_FIELD
| IN_QUOTED_FIELD
| QUOTE_IN_QUOTED_FIELD
| EAT_CRNL.

Record reader := Reader {
  state : parser_state;
  field : text;            (* the field being read *)
  fields : list text       (* the fields of the record so far *)
}.

(** A character of the line, or the end of the line. *)
Inductive input :=
| Char (c : char)
| EOL.

Definition parse_reset : reader := Reader START_RECORD [] [].

Definition parse_save_field (r : reader) (st : parser_state) : reader :=
  Reader st [] (fields r ++ [field r]).

Definition parse_add_char (r : reader) (c : char) (st : parser_state) : reader :=
  Reader st (field r ++ [c]) (fields r).

Definition goto (r : reader) (st : parser_state) : reader :=
  Reader st (field r) (fields r).

Definition newline (c : char) : bool := (c =? LF) || (c =? CR).

Definition start_field (r : reader) (i : input) : result reader :=
  match i with
  | EOL => Ok (parse_save_field r START_RECORD)
  | Char c =>
    if newline c then Ok (parse_save_field r EAT_CRNL)
    else if c =? QUOTE then Ok (goto r IN_QUOTED_FIELD)
    else if c =? COMMA then Ok (parse_save_field r START_FIELD)
    else Ok (parse_add_char r c IN_FIELD)
  end.

Definition parse_process_char (r : reader) (i : input) : result reader :=
  match state r with
  | START_RECORD =>
    match i with
    | EOL => Ok r
    | Char c => if newline c then Ok (goto r EAT_CRNL) else start_field r i
    end
  | START_FIELD => start_field r i
  | IN_FIELD =>
    match i with
    | EOL => Ok (parse_save_field r START_RECORD)
    | Char c =>
      if newline c then Ok (parse_save_field r EAT_CRNL)
      else if c =? COMMA then Ok (parse_save_field r START_FIELD)
      else Ok (parse_add_char r c IN_FIELD)
    end
  | IN_QUOTED_FIELD =>
    match i with
    | EOL => Ok r
    | Char c =>
      if c =? QUOTE then Ok (goto r QUOTE_IN_QUOTED_FIELD)
      else Ok (parse_add_char r c IN_QUOTED_FIELD)
    end
  | QUOTE_IN_QUOTED_FIELD =>
    match i with
    | EOL => Ok (parse_save_field r START_RECORD)
    | Char c =>
      if c =? QUOTE then Ok (parse_add_char r c IN_QUOTED_FIELD)
      else if c =? COMMA then Ok (parse_save_field r START_FIELD)
      else if newline c then Ok (parse_save_field r EAT_CRNL)
      else Ok (parse_add_char r c IN_FIELD)
    end
  | EAT_CRNL =>
    match i with
    | EOL => Ok (goto r START_RECORD)
    | Char c => if newline c then Ok r else Raise CsvError
    end
  end.

(** The file is opened with an empty [newline]: its lines end after LF, after
    CR LF, after a CR that no LF follows, and at the end of the text. *)
Definition ends_line (c : char) (t : text) : bool :=
  match t with
  | [] => true
  | c2 :: _ => (c =? LF) || ((c =? CR) && negb (c2 =? LF))
  end.

Definition in_record (r : reader) : bool :=
  match state r with
  | START_RECORD => false
  | _ => true
  end.

(** The input ran out inside a record. *)
Definition at_eof (r : reader) : list (list text) :=
  match field r, state r with
  | _ :: _, _ | _, IN_QUOTED_FIELD => [fields r ++ [field r]]
  | _, _ => []
  end.

(** [for row in csv.reader(file)]: the reader takes the file line by line,
    feeds it each character and then the end of the line, and yields the
    fields whenever a line ends outside a quoted field. *)
Fixpoint reader_rows (r : reader) (s : text) : result (list (list text)) :=
  match s with
  | [] => Ok (at_eof r)
  | c :: t =>
    r1 ← parse_process_char r (Char c);
    if ends_line c t then
      r2 ← parse_process_char r1 EOL;
      if in_record r2 then reader_rows r2 t
      else rows ← reader_rows parse_reset t; Ok (fields r2 :: rows)
    else reader_rows r1 t
  end.

Definition csv_reader (s : text) : result (list (list text)) :=
  reader_rows parse_reset s.

(** ** The backing file

    The state is the file at [self.filename]: its text, or nothing when
    there is no such file.  An operation returns a value or raises, and
    leaves a file behind either way. *)

Definition store := option text.
Definition M (A : Type) : Type := store -> result A * store.

#[global] Instance M_ret : MRet M := fun A a st => (Ok a, st).
#[global] Instance M_bind : MBind M := fun A B f m st =>
  match m st with
  | (Ok a, st') => f a st'
  | (Raise e, st') => (Raise e, st')
  end.

Definition lift {A} (r : result A) : M A := fun st => (r, st).

(** [open(filename)] and reading it whole. *)
Definition read_file : M text := fun st =>
  match st with
  | Some t => (Ok t, st)
  | None => (Raise FileNotFoundError, st)
  end.

(** [open(filename, "w")] and writing [t]. *)
Definition write_file (t : text) : M unit := fun _ => (Ok tt, Some t).

(** [open(filename, "a")] and writing [t]. *)
Definition append_file (t : text) : M unit := fun st =>
  (Ok tt, Some (default [] st ++ t)).

(** ** Transaction, AccountManager *)

Record Transaction := {
  date : text;
  category : text;
  amount : Z;
  description : text
}.

Definition INCOME : text := utf8 "Доход".
Definition EXPENSE : text := utf8 "Расход".

Definition load_transactions : M (list (list value)) :=
  t ← read_file;
  rows ← lift (csv_reader t);
  mret (map (map Str) rows).

Definition save_transactions (transactions : list (list value)) : M unit :=
  write_file (writerows transactions).

Definition add_transaction (transaction : Transaction) : M unit :=
  append_file
    (writerow [Str (date transaction); Str (category transaction);
               Int (amount transaction); Str (description transaction)]).

Definition edit_transaction (transaction_index : Z)
    (new_transaction_data : list value) : M unit :=
  transactions ← load_transactions;
  transactions ← lift (setitem transactions (transaction_index - 1) new_transaction_data);
  save_transactions transactions.

(** [key == name and transaction[i] != value] *)
Definition mismatch (key name : text) (transaction : list value) (i : Z)
    (v : value) : result bool :=
  if text_eqb key name
  then x ← getitem transaction i; mret (negb (value_eqb x v))
  else mret false.

(** The inner loop over [criteria.items()], in the dictionary's order. *)
Fixpoint criteria_match (criteria : list (text * value))
    (transaction : list value) : result bool :=
  match criteria with
  | [] => mret true
  | (key, v) :: rest =>
    b ← mismatch key (utf8 "date") transaction 0 v;
    if b : bool then mret false else
    b ← mismatch key (utf8 "category") transaction 1 v;
    if b : bool then mret false else
    b ← mismatch key (utf8 "amount") transaction 2 v;
    if b : bool then mret false else
    criteria_match rest transaction
  end.

Fixpoint search_loop (criteria : list (text * value))
    (transactions found : list (list value)) : result (list (list value)) :=
  match transactions with
  | [] => mret found
  | transaction :: rest =>
    m ← criteria_match criteria transaction;
    search_loop criteria rest (if m : bool then found ++ [transaction] else found)
  end.

Definition search_transactions (criteria : list (text * value))
    : M (list (list value)) :=
  transactions ← load_transactions;
  lift (search_loop criteria transactions []).

(** [balance = 0] is an [int]; the first [+=] or [-=] of a [float] makes
    it a [float]. *)
Inductive number :=
| NInt (n : Z)
| NFloat (x : float).

Definition to_float (b : number) : float :=
  match b with
  | NInt n => float_of_Z n
  | NFloat x => x
  end.

Definition num_add (b : number) (x : float) : number := NFloat (fadd (to_float b) x).
Definition num_sub (b : number) (x : float) : number := NFloat (fsub (to_float b) x).

Section Aggregates.
Context {U : Unicode}.

Fixpoint balance_loop (transactions : list (list value)) (balance : number)
    : result number :=
  match transactions with
  | [] => mret balance
  | transaction :: rest =>
    a ← getitem transaction 2;
    amount ← py_float a;
    c ← getitem transaction 1;
    if value_eqb c (Str INCOME) then balance_loop rest (num_add balance amount)
    else if value_eqb c (Str EXPENSE) then balance_loop rest (num_sub balance amount)
    else balance_loop rest balance
  end.

Definition show_balance : M number :=
  transactions ← load_transactions;
  lift (balance_loop transactions (NInt 0)).

(** The loop shared by [show_expenses] and [show_profit]. *)
Fixpoint category_loop (label : text) (transactions : list (list value))
    (total : number) (kept : list (list value))
    : result (list (list value) * number) :=
  match transactions with
  | [] => mret (kept, total)
  | transaction :: rest =>
    c ← getitem transaction 1;
    if value_eqb c (Str label) then
      a ← getitem transaction 2;
      amount ← py_float a;
      category_loop label rest (num_add total amount) (kept ++ [transaction])
    else category_loop label rest total kept
  end.

Definition show_expenses : M (list (list value) * number) :=
  transactions ← load_transactions;
  lift (category_loop EXPENSE transactions (NInt 0) []).

Definition show_profit : M (list (list value) * number) :=
  transactions ← load_transactions;
  lift (category_loop INCOME transactions (NInt 0) []).

Definition check_transaction_number_input (transaction_number : text)
    (len_transactions : Z) : bool :=
  match int_of_text transaction_number with
  | Ok number => (1 <=? number)%Z && (number <=? len_transactions)%Z
  | Raise _ => false
  end.

(** The prompt loops, over the lines [input()] will return. *)
Fixpoint check_date_input (stdin : list text) : result text * list text :=
  match stdin with
  | [] => (Raise EOFError, [])
  | date_input :: rest =>
    if matches DATE_PATTERN date_input then (Ok date_input, rest)
    else check_date_input rest
  end.

Fixpoint check_amount_input (stdin : list text) : result Z * list text :=
  match stdin with
  | [] => (Raise EOFError, [])
  | amount_input :: rest =>
    if matches AMOUNT_PATTERN amount_input then (int_of_text amount_input, rest)
    else check_amount_input rest
  end.
End Aggregates.

(** ** The console

    What the program does besides the file: the lines [input] reads, and
    what [print] and the prompts of [input] write.  A line written is kept
    as the pieces of its f-string; the text of a number and of a list is not
    unfolded. *)

Module Console.

Inductive piece :=
| Lit (s : text)
| Num (n : Z)              (* num_commands, index+1, len_transactions *)
| Total (b : number)       (* balance, expenses, profit *)
| Row (row : list value).  (* transaction *)

Inductive event :=
| Print (l : list piece)     (* print(...) *)
| Prompt (l : list piece).   (* the prompt of input(...) *)

Record world := World {
  file : store;
  stdin : list text;
  stdout : list event
}.

(** A run returns a value or raises, in a new world; [None] stands for a
    loop that has used up its rounds (see [loop]). *)
Definition IO (A : Type) : Type := world -> option (result A * world).

#[global] Instance IO_ret : MRet IO := fun A a w => Some (Ok a, w).
#[global] Instance IO_bind : MBind IO := fun A B f m w =>
  match m w with
  | Some (Ok a, w') => f a w'
  | Some (Raise e, w') => Some (Raise e, w')
  | None => None
  end.

(** A value, or an exception raised. *)
Definition of_result {A} (r : result A) : IO A := fun w => Some (r, w).

Definition throw {A} (e : exn) : IO A := of_result (Raise e).

Definition print (l : list piece) : IO unit := fun w =>
  Some (Ok tt, World (file w) (stdin w) (stdout w ++ [Print l])).

(** [print] of a string literal. *)
Definition say (s : string) : IO unit := print [Lit (utf8 s)].

(** [input(prompt)]: the next line without its line end; [EOFError] when
    no line is left. *)
Definition input (prompt : list piece) : IO text := fun w =>
  let out := stdout w ++ [Prompt prompt] in
  match stdin w with
  | line :: rest => Some (Ok line, World (file w) rest out)
  | [] => Some (Raise EOFError, World (file w) [] out)
  end.

(** A method of [account_manager], on the file of the world. *)
Definition on_file {A} (m : M A) : IO A := fun w =>
  let '(r, st) := m (file w) in Some (r, World st (stdin w) (stdout w)).

(** [while True:] with a body that says [Some a] where it breaks (or
    returns) with [a], and [None] where it goes round again. *)
Fixpoint while {A} (rounds : nat) (body : IO (option A)) : IO A :=
  match rounds with
  | O => fun _ => None
  | S rounds' =>
    r ← body;
    match r with
    | Some a => mret a
    | None => while rounds' body
    end
  end.

(** The rounds are bounded by the lines left to read, one more than a loop
    can go round that reads a line every time. *)
Definition loop {A} (body : IO (option A)) : IO A := fun w =>
  while (S (length (stdin w))) body w.

(** [for x in l: body] *)
Fixpoint for_each {A} (l : list A) (body : A -> IO unit) : IO unit :=
  match l with
  | [] => mret tt
  | x :: l' => body x;; for_each l' body
  end.

(** [command == n], where [command] may be [None]. *)
Definition chosen (command : option Z) (n : Z) : bool :=
  match command with
  | Some k => (k =? n)%Z
  | None => false
  end.

Section Program.
Context {U : Unicode}.

Definition print_error_message : IO unit :=
  say "---";;
  say "Ошибка: Введен некорректный номер команды!";;
  say "---".

Definition request_command_number (num_commands : Z) : IO (option Z) :=
  line ← input [Lit (utf8 "Введите номер команды (от 1 до "); Num num_commands;
                Lit (utf8 "): ")];
  match int_of_text line with
  | Ok command_number =>
    if (1 <=? command_number)%Z && (command_number <? num_commands + 1)%Z
    then mret (Some command_number)
    else print_error_message;; mret None
  | Raise ValueError => print_error_message;; mret None
  | Raise e => throw e
  end.

(** [str.strip()]: white space as [str.isspace] has it, off both ends. *)
Definition is_space (c : char) : bool :=
  if c <? 128
  then ((9 <=? c) && (c <=? 13)) || ((28 <=? c) && (c <=? 32))
  else uni_space c.

Definition str_strip (s : text) : text :=
  rev (drop_while is_space (rev (drop_while is_space s))).

(** The two prompt loops of [AccountManager], with what they write. *)
Definition check_date_input : IO text :=
  loop (
    date_input ← input [Lit (utf8 "Введите дату в формате гггг-мм-дд: ")];
    if matches DATE_PATTERN date_input then mret (Some date_input)
    else
      say "Неправильный формат даты. Например - для 4 мая 2024г формат даты будет такой: 2024-05-04.";;
      mret None).

Definition check_amount_input (category : text) : IO Z :=
  loop (
    amount_input ← input [Lit category; Lit (utf8 ". Введите сумму (в рублях): ")];
    if matches AMOUNT_PATTERN amount_input
    then n ← of_result (int_of_text amount_input); mret (Some n)
    else say "Неправильный формат суммы. Только цифры!";; mret None).

(** Command 1 *)
Definition show_command : IO unit :=
  loop (
    say "1. Вывести баланс.";;
    say "2. Вывести все расходы.";;
    say "3. Вывести все доходы.";;
    sub_command ← request_command_number 3;
    if chosen sub_command 1 then
      balance ← on_file show_balance;
      say "---";;
      print [Lit (utf8 "Ваш баланс составляет: "); Total balance; Lit (utf8 " руб.")];;
      say "---";;
      mret (Some tt)
    else if chosen sub_command 2 then
      '(transactions, expenses) ← on_file show_expenses;
      say "---";;
      say "Все расходы:";;
      for_each transactions (fun transaction => print [Row transaction]);;
      print [Lit (utf8 "Общая сумма расходов: "); Total expenses; Lit (utf8 " руб.")];;
      say "---";;
      mret (Some tt)
    else if chosen sub_command 3 then
      '(transactions, profit) ← on_file show_profit;
      say "---";;
      say "Все доходы:";;
      for_each transactions (fun transaction => print [Row transaction]);;
      print [Lit (utf8 "Общая сумма доходов: "); Total profit; Lit (utf8 " руб.")];;
      say "---";;
      mret (Some tt)
    else mret None).

(** Command 2 *)
Definition add_command : IO unit :=
  category ← loop (
    say "1. Добавить запись о Расходе?";;
    say "2. Добавить запись о Доходе?";;
    sub_command ← request_command_number 2;
    if chosen sub_command 1 then mret (Some EXPENSE)
    else if chosen sub_command 2 then mret (Some INCOME)
    else mret None);
  amount ← check_amount_input category;
  line ← input [Lit category; Lit (utf8 ". Введите описание: ")];
  let description := str_strip line in
  date ← check_date_input;
  on_file (add_transaction
             {| date := date; category := category; amount := amount;
                description := description |});;
  say "---";;
  say "Запись добавлена!";;
  say "---".

(** [for index, transaction in enumerate(transactions)], from [index]. *)
Fixpoint print_numbered (index : Z) (transactions : list (list value)) : IO unit :=
  match transactions with
  | [] => mret tt
  | transaction :: rest =>
    print [Num (index + 1); Lit (utf8 ". "); Row transaction];;
    print_numbered (index + 1) rest
  end.

(** Command 3.  The position handed to [edit_transaction] is
    [sub_command], the answer to the question about the category. *)
Definition edit_command : IO unit :=
  transactions ← on_file load_transactions;
  let len_transactions := Z.of_nat (length transactions) in
  say "Список всех транзакций:";;
  print_numbered 0 transactions;;
  loop (
    transaction_number_input ←
      input [Lit (utf8 "Введите номер записи, которую хотите отредактировать: ")];
    if check_transaction_number_input transaction_number_input len_transactions
    then mret (Some tt)
    else
      print [Lit (utf8 "Неправильный номер записи. Введите номер записи от 1 до ");
             Num len_transactions; Lit (utf8 ".")];;
      mret None);;
  '(sub_command, new_category) ← loop (
    say "1. Новая категория будет - Расход?";;
    say "2. Новая категория будет - Доход?";;
    sub_command ← request_command_number 2;
    match sub_command with
    | Some k =>
      if (k =? 1)%Z then mret (Some (k, EXPENSE))
      else if (k =? 2)%Z then mret (Some (k, INCOME))
      else mret None
    | None => mret None
    end);
  date ← check_date_input;
  amount ← check_amount_input new_category;
  description ← input [Lit (utf8 "Введите новое описание: ")];
  let new_transaction_data :=
    [Str date; Str new_category; Int amount; Str description] in
  on_file (edit_transaction sub_command new_transaction_data);;
  say "---";;
  say "Запись отредактирована!";;
  say "---".

(** Command 4 *)
Definition search_command : IO unit :=
  key ← loop (
    say "1. Поиск записей по категории.";;
    say "2. Поиск записей по дате.";;
    say "3. Поиск записей по сумме.";;
    sub_command ← request_command_number 3;
    if chosen sub_command 1 then mret (Some (utf8 "category"))
    else if chosen sub_command 2 then mret (Some (utf8 "date"))
    else if chosen sub_command 3 then mret (Some (utf8 "amount"))
    else mret None);
  search_query ← input [Lit (utf8 "Введите поисковый запрос: ")];
  let criteria := [(key, Str search_query)] in
  search_result ← on_file (search_transactions criteria);
  say "---";;
  say "Результаты поиска:";;
  for_each search_result (fun transaction => print [Row transaction]);;
  say "---".

(** The script: the menu, until command 5. *)
Definition main : IO unit :=
  say "Добро пожаловать в консольное приложение 'Личный финансовый кошелек'.";;
  loop (
    say "Что Вы хотите сделать?";;
    say "1. Вывести баланс, все доходы или расходы.";;
    say "2. Добавить запись (о доходе или расходе).";;
    say "3. Редактировать запись.";;
    say "4. Поиск по записям.";;
    say "5. Выйти из программы.";;
    command ← request_command_number 5;
    if chosen command 1 then show_command;; mret None
    else if chosen command 2 then add_command;; mret None
    else if chosen command 3 then edit_command;; mret None
    else if chosen command 4 then search_command;; mret None
    else if chosen command 5 then
      say "---";;
      say "До свидания!";;
      say "---";;
      mret (Some tt)
    else mret None).
End Program.
End Console.

(** ** The tests of [test.py]

    [setUp] names the file of the manager and touches nothing; [tearDown]
    removes the file.  A test method passes or fails an assertion, unless
    another exception ends it. *)

Module Tests.

Inductive verdict :=
| Passed
| Failed.   (* AssertionError *)

Section Cases.
Context {U : Unicode}.

(** [int(x)] *)
Definition py_int (x : value) : result Z :=
  match x with
  | Str s => int_of_text s
  | Int n => Ok n
  end.

(** [self.assertEqual(first, second)], and the rest of the method. *)
Definition assertEqual (first second : value) (rest : M verdict) : M verdict :=
  if value_eqb first second then rest else mret Failed.

Definition test_add_transaction : M verdict :=
  let test_transaction :=
    {| date := utf8 "2024-05-01"; category := utf8 "Доход"; amount := 1000;
       description := utf8 "Тестовое описание" |} in
  add_transaction test_transaction;;
  transactions ← load_transactions;
  assertEqual (Int (Z.of_nat (length transactions))) (Int 1) (
  added_transaction ← lift (getitem transactions 0);
  x ← lift (getitem added_transaction 0);
  assertEqual x (Str (utf8 "2024-05-01")) (
  x ← lift (getitem added_transaction 1);
  assertEqual x (Str (utf8 "Доход")) (
  x ← lift (getitem added_transaction 2);
  n ← lift (py_int x);
  assertEqual (Int n) (Int 1000) (
  x ← lift (getitem added_transaction 3);
  assertEqual x (Str (utf8 "Тестовое описание")) (
  mret Passed))))).

Definition test_edit_transaction : M verdict :=
  let test_transaction1 :=
    {| date := utf8 "2024-05-01"; category := utf8 "Доход"; amount := 1000;
       description := utf8 "Тестовое описание 1" |} in
  let test_transaction2 :=
    {| date := utf8 "2024-05-02"; category := utf8 "Расход"; amount := 500;
       description := utf8 "Тестовое описание 2" |} in
  add_transaction test_transaction1;;
  add_transaction test_transaction2;;
  let new_transaction_data :=
    [Str (utf8 "2024-05-03"); Str (utf8 "Расход"); Int 700;
     Str (utf8 "Новое описание")] in
  edit_transaction 1 new_transaction_data;;
  transactions ← load_transactions;
  assertEqual (Int (Z.of_nat (length transactions))) (Int 2) (
  edited_transaction ← lift (getitem transactions 0);
  x ← lift (getitem edited_transaction 0);
  assertEqual x (Str (utf8 "2024-05-03")) (
  x ← lift (getitem edited_transaction 1);
  assertEqual x (Str (utf8 "Расход")) (
  x ← lift (getitem edited_transaction 2);
  n ← lift (py_int x);
  assertEqual (Int n) (Int 700) (
  x ← lift (getitem edited_transaction 3);
  assertEqual x (Str (utf8 "Новое описание")) (
  mret Passed))))).
End Cases.

(** [os.remove(self.filename)] *)
Definition remove : M unit := fun st =>
  match st with
  | Some _ => (Ok tt, None)
  | None => (Raise FileNotFoundError, None)
  end.

(** One test of the case: the method, then [tearDown]; the outcome of
    each, and the file left. *)
Definition run (method : M verdict) (st : store)
    : result verdict * result unit * store :=
  let '(outcome, st1) := method st in
  let '(removed, st2) := remove st1 in
  (outcome, removed, st2).
End Tests.


(** ** The specification's notions *)

Section Wording.
Context {U : Unicode}.

(** A non-empty string consisting only of digits. *)
Definition digits_only (s : text) : bool :=
  match s with
  | [] => false
  | _ :: _ => forallb is_decimal s
  end.

(** Two ASCII digits that read as a number between [lo] and [hi]. *)
Definition two_digit (lo hi : N) (a b : char) : bool :=
  ascii_digit a && ascii_digit b
  && (lo <=? 10 * (a - 48) + (b - 48)) && (10 * (a - 48) + (b - 48) <=? hi).

(** The first ten characters form a date: four digits, hyphen, month
    01-12, hyphen, day 01-31. *)
Definition date_prefix (s : text) : bool :=
  match s with
  | y1 :: y2 :: y3 :: y4 :: h1 :: m1 :: m2 :: h2 :: d1 :: d2 :: _ =>
    is_decimal y1 && is_decimal y2 && is_decimal y3 && is_decimal y4
    && (h1 =? 45) && two_digit 1 12 m1 m2
    && (h2 =? 45) && two_digit 1 31 d1 d2
  | _ => false
  end.

(** The shape [DATE_PATTERN] asks of the first ten characters: a month
    0 and 1-9 or 1 and 0-2, a day 0 and 1-9, or 1 or 2 and a digit, or 3
    and 0 or 1. *)
Definition month_shape (a b : char) : bool :=
  ((a =? 48) && (49 <=? b) && (b <=? 57)) || ((a =? 49) && (48 <=? b) && (b <=? 50)).

Definition day_shape (a b : char) : bool :=
  ((a =? 48) && (49 <=? b) && (b <=? 57))
  || (((a =? 49) || (a =? 50)) && is_decimal b)
  || ((a =? 51) && ((b =? 48) || (b =? 49))).

Definition date_shape (s : text) : bool :=
  match s with
  | y1 :: y2 :: y3 :: y4 :: h1 :: m1 :: m2 :: h2 :: d1 :: d2 :: _ =>
    is_decimal y1 && is_decimal y2 && is_decimal y3 && is_decimal y4
    && (h1 =? 45) && month_shape m1 m2
    && (h2 =? 45) && day_shape d1 d2
  | _ => false
  end.

(** The number [show_balance] reads in a row: [float(transaction[2])]. *)
Definition amount_of (row : list value) : result float :=
  a ← getitem row 2; py_float a.
End Wording.

(** A table as the character database is: a decimal digit has a value
    below ten and is not white space. *)
Definition coherent (U : Unicode) : Prop :=
  forall c d, uni_decimal c = Some d -> d < 10 /\ uni_space c = false.

(** A row as it reads back from the file: every field its text. *)
Definition as_text (row : list value) : list value := map Str (map py_str row).

(** Every field of the row is a [str]. *)
Definition all_str (row : list value) : bool :=
  forallb (fun v => match v with Str _ => true | Int _ => false end) row.

(** The row [add_transaction] writes for a transaction. *)
Definition row_of (t : Transaction) : list value :=
  [Str (date t); Str (category t); Int (amount t); Str (description t)].

(** The stores the program itself leaves behind, starting from no file. *)
Inductive written : store -> Prop :=
| written_none : written None
| written_add t st : written st -> written (snd (add_transaction t st))
| written_edit i new st : written st -> written (snd (edit_transaction i new st))
| written_save rows st : written st -> written (snd (save_transactions rows st)).

(** The field a search key stands for. *)
Definition field_index (key : text) : option nat :=
  if text_eqb key (utf8 "date") then Some 0%nat
  else if text_eqb key (utf8 "category") then Some 1%nat
  else if text_eqb key (utf8 "amount") then Some 2%nat
  else None.

(** The criteria without the key. *)
Definition remove_key (key : text) (criteria : list (text * value))
    : list (text * value) :=
  List.filter (fun kv => negb (text_eqb (fst kv) key)) criteria.

(** Field [i] of the row is the string [s]. *)
Definition has_field (i : nat) (s : text) (row : list value) : bool :=
  match row !! i with
  | Some (Str x) => text_eqb x s
  | _ => false
  end.

(** The sum of the amounts [ns] of the rows whose category is [label]. *)
Fixpoint category_total (label : text) (rows : list (list value)) (ns : list Z) : Z :=
  match rows, ns with
  | row :: rows', n :: ns' =>
    ((if has_field 1 label row then n else 0) + category_total label rows' ns')%Z
  | _, _ => 0%Z
  end.

(** The whole number a float stands for, when it is one. *)
Definition whole_of (x : float) : option Z :=
  match x with
  | S754_zero _ => Some 0%Z
  | S754_finite s m e =>
    if (0 <=? e)%Z then Some (cond_Zopp s (Zpos m * 2 ^ e))%Z
    else if (Zpos m mod 2 ^ (- e) =? 0)%Z
         then Some (cond_Zopp s (Zpos m / 2 ^ (- e)))%Z
         else None
  | _ => None
  end.

(** The row meets one criterion: the field its key names equals the
    value; a key that names no field is met by every row. *)
Definition holds (row : list value) (kv : text * value) : bool :=
  match field_index (fst kv) with
  | Some i =>
    match row !! i with
    | Some x => value_eqb x (snd kv)
    | None => false
    end
  | None => true
  end.

(** The rows of one category and their amounts: a row has its category
    field, an amount is not negative, and the amount of a row of the
    category reads as that whole number.  Nothing is asked of the amount
    field of the other rows. *)
Definition category_amounts {U : Unicode} (label : text)
    (rows : list (list value)) (ns : list Z) : Prop :=
  Forall2 (fun row n =>
             (2 <= length row)%nat /\ (0 <= n)%Z
             /\ (has_field 1 label row = true -> amount_of row = Ok (float_of_Z n)))
          rows ns.

(** ** Notions of the proofs *)

(** The reader after the text of one field, with the delimiter or the
    line end still to come. *)
Definition pending (f : text) (fs : list text) : reader :=
  if existsb special f then Reader QUOTE_IN_QUOTED_FIELD f fs
  else match f with
       | [] => Reader START_FIELD [] fs
       | _ :: _ => Reader IN_FIELD f fs
       end.

(** A record as the menu leaves it in the file: a date, one of the two
    categories, the decimal text of a number that is not negative, a
    description. *)
Definition tidy_row (row : list value) : Prop :=
  exists d c n descr,
    row = [Str d; Str c; Str (str_of_int n); Str descr]
    /\ (0 <= n)%Z /\ (c = INCOME \/ c = EXPENSE).

(** No file, or a file of such records. *)
Definition tidy (st : store) : Prop :=
  st = None
  \/ exists rows, st = Some (writerows rows) /\ Forall tidy_row (map as_text rows).

(** The exceptions the menu can end with on such a file. *)
Definition expected (e : exn) : Prop :=
  e = EOFError \/ e = FileNotFoundError \/ e = IndexError.

(** What a transaction adds to the balance. *)
Definition signed_amount (t : Transaction) : Z :=
  if text_eqb (category t) INCOME then amount t
  else if text_eqb (category t) EXPENSE then (- amount t)%Z
  else 0%Z.

(** The store after adding the transactions in turn. *)
Definition after_adding (ts : list Transaction) (st : store) : store :=
  fold_left (fun st t => snd (add_transaction t st)) ts st.

(** The records of a store; none where there is no file. *)
Definition records_of (st : store) : list (list value) :=
  match fst (load_transactions st) with
  | Ok rows => rows
  | Raise _ => []
  end.

(** The command a line stands for among [num_commands] commands: the
    number it reads as, when that lies from 1 to [num_commands]. *)
Definition command_of {U : Unicode} (line : text) (num_commands : Z) : option Z :=
  match int_of_text line with
  | Ok k => if (1 <=? k)%Z && (k <=? num_commands)%Z then Some k else None
  | Raise _ => None
  end.

(** The run of [m] in the world [w] ends, with a result and in a world
    that [Q] holds of. *)
Definition ends {A} (m : Console.IO A) (w : Console.world)
    (Q : result A -> Console.world -> Prop) : Prop :=
  exists r w', m w = Some (r, w') /\ Q r w'.

(** The run of [m] keeps the invariant [I] of the file, does not
    lengthen the input, raises exceptions of [E] only and returns values of
    [P]; where [strict], it has read a line when it returns. *)
Definition sound (I : store -> Prop) (E : exn -> Prop) {A} (strict : bool)
    (P : A -> Prop) (m : Console.IO A) : Prop :=
  forall w, I (Console.file w) ->
  ends m w (fun r w' =>
    I (Console.file w')
    /\ (length (Console.stdin w') <= length (Console.stdin w))%nat
    /\ match r with
       | Ok a =>
         P a /\ (strict = true ->
                 (length (Console.stdin w') < length (Console.stdin w))%nat)
       | Raise e => E e
       end).

(** A digit or the minus sign: the characters of [str(n)]. *)
Definition plain (c : char) : bool := ascii_digit c || (c =? 45).

(** [p * 2^k], as the float operations shift a mantissa. *)
Definition shl (p : positive) (k : nat) : positive := Nat.iter k xO p.

(** The binary64 of sign [s] and magnitude [p], for [p] of at most 53
    bits: the mantissa aligned to 53 bits. *)
Definition finite_of (s : bool) (p : positive) : float :=
  S754_finite s (shl p (Z.to_nat (53 - Zpos (digits2_pos p))))
              (Zpos (digits2_pos p) - 53).

(** ** Sample data *)

(** The two transactions of the repository's test, and a replacement
    record as the menu builds it: the amount an [int]. *)
Definition salary : Transaction :=
  {| date := utf8 "2024-05-01"; category := INCOME; amount := 1000;
     description := utf8 "salary" |}.

Definition food : Transaction :=
  {| date := utf8 "2024-05-02"; category := EXPENSE; amount := 500;
     description := utf8 "food" |}.

Definition rent : list value :=
  [Str (utf8 "2024-05-03"); Str EXPENSE; Int 700; Str (utf8 "rent")].

(** The store after appending [salary] and [food] where no file was. *)
Definition two_records : store :=
  snd (add_transaction food (snd (add_transaction salary None))).

(** A file of one row, of another category, whose amount is no number. *)
Definition other_category : store :=
  Some (utf8 "2024-05-01,Прочее,abc,note" ++ [CR; LF]).

(** Four transactions: income 10^16, income 1, expense 10^16, income 1;
    the store after appending them, and the rows it loads. *)
Definition large : list Transaction :=
  [ {| date := utf8 "2024-05-01"; category := INCOME; amount := 10 ^ 16;
       description := utf8 "a" |};
    {| date := utf8 "2024-05-02"; category := INCOME; amount := 1;
       description := utf8 "b" |};
    {| date := utf8 "2024-05-03"; category := EXPENSE; amount := 10 ^ 16;
       description := utf8 "c" |};
    {| date := utf8 "2024-05-04"; category := INCOME; amount := 1;
       description := utf8 "d" |} ].

Definition large_amounts : store :=
  fold_left (fun st t => snd (add_transaction t st)) large None.

Definition large_rows : list (list value) :=
  map (fun t => as_text (row_of t)) large.

(** A table that knows the Arabic-Indic digits, U+0660 to U+0669, and the
    no-break space. *)
Definition arabic_indic : Unicode :=
  {| uni_decimal := fun c =>
       if (1632 <=? c) && (c <=? 1641) then Some (c - 1632) else None;
     uni_space := fun c => c =? 160 |}.

(** * Properties *)

(** ** The validators *)

Section Validators.
Context {U : Unicode}.

Lemma run_seq r1 r2 k : run (Seq r1 r2) k = flat_map (run r2) (run r1 k).
Proof. reflexivity. Qed.

Lemma matches_nonempty r s :
  matches r s = true <-> exists k, In k (run r (Cursor 0 s)).
Proof.
  unfold matches, re_match.
  destruct (run r (Cursor 0 s)) as [|k l]; split.
  - discriminate.
  - intros [k []].
  - intros _. exists k. now left.
  - reflexivity.
Qed.

(** The cursors [\d+] can stop at: after every non-empty run of digits
    that starts the rest of the input. *)
Lemma greedy_digits fuel k k' :
  In k' (greedy (run Dig) fuel k) <->
  exists ds, ds <> [] /\ (length ds <= fuel)%nat /\ forallb is_decimal ds = true
             /\ rest k = ds ++ rest k' /\ pos k' = (length ds + pos k)%nat.
Proof.
  revert k. induction fuel as [|fuel IH]; intros [p s]; simpl.
  - split; [intros [] |].
    intros (ds & Hne & Hlen & _). destruct ds; [congruence | simpl in Hlen; lia].
  - unfold advance; simpl. destruct s as [|c t]; simpl.
    + split; [intros [] |].
      intros (ds & Hne & _ & _ & Hs & _). destruct ds; [congruence | discriminate].
    + unfold among; simpl. rewrite orb_false_r.
      destruct (is_decimal c) eqn:Hc; simpl.
      * rewrite app_nil_r, in_app_iff, IH. simpl. split.
        -- intros [(ds & Hne & Hlen & Hall & Hs & Hp) | [<- | []]].
           ++ exists (c :: ds). simpl in *. rewrite Hc, Hall, Hs, Hp.
              repeat split; [congruence | lia | lia].
           ++ exists [c]. simpl. rewrite Hc. repeat split; [congruence | lia].
        -- intros (ds & Hne & Hlen & Hall & Hs & Hp).
           destruct ds as [|d ds]; [congruence |]. simpl in *.
           injection Hs as -> Hs. apply andb_true_iff in Hall as [_ Hall].
           destruct ds as [|d2 ds].
           ++ right; left. simpl in *. subst t. destruct k'; simpl in *. now subst.
           ++ left. exists (d2 :: ds). repeat split; try assumption; try lia.
              congruence.
      * split; [intros [] |].
        intros (ds & Hne & _ & Hall & Hs & _).
        destruct ds as [|d ds]; [congruence |]. simpl in *.
        injection Hs as -> _. rewrite Hc in Hall. discriminate.
Qed.

Lemma at_eol_spec k : at_eol k = true <-> rest k = [] \/ rest k = [LF].
Proof.
  unfold at_eol. destruct (rest k) as [|c [|c2 t]].
  - split; [now left | reflexivity].
  - rewrite N.eqb_eq. split.
    + intros ->. now right.
    + intros [H | H]; [discriminate | now injection H].
  - split; [discriminate | intros [H | H]; discriminate].
Qed.

(** What [AMOUNT_PATTERN.match] accepts. *)
Lemma amount_pattern_spec s :
  matches AMOUNT_PATTERN s = true <->
  digits_only s = true \/ exists ds, s = ds ++ [LF] /\ digits_only ds = true.
Proof.
  rewrite matches_nonempty. unfold AMOUNT_PATTERN.
  assert (Hrun : forall k, In k (run (Seq Bol (Seq (Plus Dig) Eol)) (Cursor 0 s)) <->
            In k (greedy (run Dig) (S (length s)) (Cursor 0 s)) /\ at_eol k = true).
  { intros k.
    change (run (Seq Bol (Seq (Plus Dig) Eol)) (Cursor 0 s))
      with (flat_map (run Eol) (greedy (run Dig) (S (length s)) (Cursor 0 s)) ++ []).
    rewrite app_nil_r, in_flat_map. simpl run. split.
    - intros (k1 & Hin & Hk). destruct (at_eol k1) eqn:He; [|destruct Hk].
      destruct Hk as [<- | []]. now split.
    - intros [Hin He]. exists k. split; [exact Hin |]. rewrite He. now left. }
  split.
  - intros (k & Hk). apply Hrun in Hk as [Hin He].
    apply greedy_digits in Hin as (ds & Hne & _ & Hall & Hs & _). simpl in Hs.
    assert (Hd : digits_only ds = true) by (destruct ds; [congruence | exact Hall]).
    apply at_eol_spec in He as [He | He]; rewrite He in Hs; subst s.
    + left. now rewrite app_nil_r.
    + right. now exists ds.
  - assert (Hok : forall ds tl, digits_only ds = true -> s = ds ++ tl ->
              (tl = [] \/ tl = [LF]) -> exists k, In k (run (Seq Bol (Seq (Plus Dig) Eol)) (Cursor 0 s))).
    { intros ds tl Hd Hs Htl. exists (Cursor (length ds) tl). apply Hrun. split.
      - apply greedy_digits. exists ds. simpl. repeat split.
        + destruct ds; [discriminate | congruence].
        + subst s. rewrite length_app. lia.
        + destruct ds; [discriminate | exact Hd].
        + exact Hs.
        + lia.
      - apply at_eol_spec. exact Htl. }
    intros [Hd | (ds & Hs & Hd)].
    + apply (Hok s []); [exact Hd | now rewrite app_nil_r | now left].
    + apply (Hok ds [LF]); [exact Hd | exact Hs | now right].
Qed.

Lemma in_seq r1 r2 k k1 k2 :
  In k1 (run r1 k) -> In k2 (run r2 k1) -> In k2 (run (Seq r1 r2) k).
Proof. intros H1 H2. rewrite run_seq, in_flat_map. now exists k1. Qed.

Lemma in_digit p c t :
  is_decimal c = true -> In (Cursor (S p) t) (run Dig (Cursor p (c :: t))).
Proof.
  intros H. simpl. unfold advance, among. simpl. rewrite H. now left.
Qed.

Lemma in_hyphen p c t :
  (c =? 45) = true -> In (Cursor (S p) t) (run (Chr "-") (Cursor p (c :: t))).
Proof.
  intros H. change (Chr "-") with (Among [One 45]).
  simpl. unfold advance, among. simpl. rewrite H. now left.
Qed.

Lemma in_four_digits p y1 y2 y3 y4 t :
  is_decimal y1 = true -> is_decimal y2 = true ->
  is_decimal y3 = true -> is_decimal y4 = true ->
  In (Cursor (4 + p) t) (run (Times 4 Dig) (Cursor p (y1 :: y2 :: y3 :: y4 :: t))).
Proof.
  intros H1 H2 H3 H4. simpl. unfold advance, among. simpl.
  rewrite H1. simpl. rewrite H2. simpl. rewrite H3. simpl. rewrite H4. now left.
Qed.

Lemma two_digit_cases lo hi a b :
  two_digit lo hi a b = true ->
  (a = 48 \/ a = 49 \/ a = 50 \/ a = 51 \/ a = 52 \/ a = 53 \/ a = 54 \/ a = 55
   \/ a = 56 \/ a = 57) /\
  (b = 48 \/ b = 49 \/ b = 50 \/ b = 51 \/ b = 52 \/ b = 53 \/ b = 54 \/ b = 55
   \/ b = 56 \/ b = 57) /\
  lo <= 10 * (a - 48) + (b - 48) <= hi.
Proof.
  unfold two_digit, ascii_digit. rewrite !andb_true_iff, !N.leb_le. lia.
Qed.

Ltac digit_pairs H :=
  apply two_digit_cases in H as (Ha & Hb & Hlo & Hhi);
  repeat (destruct Ha as [Ha | Ha]); subst;
  repeat (destruct Hb as [Hb | Hb]); subst;
  try (exfalso; vm_compute in Hlo, Hhi; congruence).

Lemma in_month p a b t :
  two_digit 1 12 a b = true ->
  In (Cursor (S (S p)) t)
     (run (Alt (Seq (Chr "0") (Among [Span (chr "1") (chr "9")]))
               (Seq (Chr "1") (Among [Span (chr "0") (chr "2")])))
          (Cursor p (a :: b :: t))).
Proof. intros H. digit_pairs H; vm_compute; auto. Qed.

Lemma in_day p a b t :
  two_digit 1 31 a b = true ->
  In (Cursor (S (S p)) t)
     (run (Alt (Seq (Chr "0") (Among [Span (chr "1") (chr "9")]))
          (Alt (Seq (Among [One (chr "1"); One (chr "2")]) Dig)
               (Seq (Chr "3") (Among [One (chr "0"); One (chr "1")]))))
          (Cursor p (a :: b :: t))).
Proof. intros H. digit_pairs H; vm_compute; auto. Qed.

Lemma date_prefix_matches s :
  date_prefix s = true -> matches DATE_PATTERN s = true.
Proof.
  intros H. apply matches_nonempty.
  destruct s as [|y1 [|y2 [|y3 [|y4 [|h1 [|m1 [|m2 [|h2 [|d1 [|d2 t]]]]]]]]]];
    try discriminate H.
  simpl in H. rewrite !andb_true_iff in H.
  destruct H as [[[[[[[Hy1 Hy2] Hy3] Hy4] Hh1] Hm] Hh2] Hd].
  exists (Cursor 10 t). unfold DATE_PATTERN.
  eapply in_seq; [now apply in_four_digits |].
  eapply in_seq; [now apply in_hyphen |].
  eapply in_seq; [now apply in_month |].
  eapply in_seq; [now apply in_hyphen |].
  now apply in_day.
Qed.
End Validators.

(** C8. The date check accepts 2024-01-01 and 2024-12-31 and rejects
    2024-13-01, 2024-00-15 and 24-05-04, whatever Unicode table is in use. *)
Theorem date_validator_boundaries (U : Unicode) :
  matches DATE_PATTERN (utf8 "2024-01-01") = true
  /\ matches DATE_PATTERN (utf8 "2024-12-31") = true
  /\ matches DATE_PATTERN (utf8 "2024-13-01") = false
  /\ matches DATE_PATTERN (utf8 "2024-00-15") = false
  /\ matches DATE_PATTERN (utf8 "24-05-04") = false.
Proof. repeat split; reflexivity. Qed.

(** C9, as stated, fails: the amount check accepts the four digits of 1000
    followed by a line feed, which is not a string of digits only. *)
Lemma amount_validator_accepts_trailing_newline :
  @matches ascii_table AMOUNT_PATTERN (utf8 "1000" ++ [LF]) = true
  /\ @digits_only ascii_table (utf8 "1000" ++ [LF]) = false.
Proof. split; reflexivity. Qed.

(** C9 (amended). The amount check accepts a string if and only if it is a
    non-empty run of digits, optionally followed by one final line feed;
    1000 is accepted, and -100, 12.5 and the empty string are rejected. *)
Theorem amount_validator_accepts (U : Unicode) (s : text) :
  (matches AMOUNT_PATTERN s = true <->
     digits_only s = true \/ exists ds, s = ds ++ [LF] /\ digits_only ds = true)
  /\ matches AMOUNT_PATTERN (utf8 "1000") = true
  /\ matches AMOUNT_PATTERN (utf8 "-100") = false
  /\ matches AMOUNT_PATTERN (utf8 "12.5") = false
  /\ matches AMOUNT_PATTERN [] = false.
Proof. split; [apply amount_pattern_spec | repeat split; reflexivity]. Qed.

(** C10. The date check looks at the start of the string only: a string
    whose first ten characters form a date (four digits, hyphen, month 01-12,
    hyphen, day 01-31) is accepted whatever follows them. *)
Theorem date_validator_ignores_tail (U : Unicode) (s : text) :
  date_prefix s = true -> matches DATE_PATTERN s = true.
Proof. apply date_prefix_matches. Qed.

(** The two strings the specification names. *)
Lemma date_validator_ignores_tail_witness :
  (@date_prefix ascii_table (utf8 "2024-05-04abc") = true
   /\ @matches ascii_table DATE_PATTERN (utf8 "2024-05-04abc") = true)
  /\ (@date_prefix ascii_table (utf8 "2024-05-0499") = true
      /\ @matches ascii_table DATE_PATTERN (utf8 "2024-05-0499") = true).
Proof.
  split; (split; [reflexivity |]).
  - apply (date_validator_ignores_tail ascii_table (utf8 "2024-05-04abc")). reflexivity.
  - apply (date_validator_ignores_tail ascii_table (utf8 "2024-05-0499")). reflexivity.
Defined.

(** ** The csv reader reads back what the csv writer wrote *)

Section Csv.

Lemma special_false c :
  special c = false ->
  (c =? COMMA) = false /\ (c =? QUOTE) = false /\ newline c = false.
Proof.
  unfold special, newline. rewrite !orb_false_iff. tauto.
Qed.

Lemma ends_line_plain c t :
  newline c = false -> t <> [] -> ends_line c t = false.
Proof.
  unfold newline, ends_line. rewrite orb_false_iff. intros [H1 H2] Ht.
  destruct t; [congruence |]. now rewrite H1, H2.
Qed.

(** Inside a quoted field every character but the quote is taken as it
    is, line ends included. *)
Lemma quoted_step b fs c t :
  (c =? QUOTE) = false ->
  reader_rows (Reader IN_QUOTED_FIELD b fs) (c :: t)
  = reader_rows (Reader IN_QUOTED_FIELD (b ++ [c]) fs) t.
Proof.
  intros Hc. cbn. rewrite Hc. cbn. now destruct (ends_line c t).
Qed.

Lemma quoted_quote b fs t :
  reader_rows (Reader IN_QUOTED_FIELD b fs) (QUOTE :: QUOTE :: t)
  = reader_rows (Reader IN_QUOTED_FIELD (b ++ [QUOTE]) fs) t.
Proof.
  cbn. now destruct (ends_line QUOTE t).
Qed.

Lemma quoted_body f : forall b fs tl,
  reader_rows (Reader IN_QUOTED_FIELD b fs) (double_quotes f ++ tl)
  = reader_rows (Reader IN_QUOTED_FIELD (b ++ f) fs) tl.
Proof.
  induction f as [|c f IH]; intros b fs tl.
  - now rewrite app_nil_r.
  - unfold double_quotes. simpl flat_map. fold (double_quotes f).
    replace (b ++ c :: f) with ((b ++ [c]) ++ f) by now rewrite <- app_assoc.
    destruct (c =? QUOTE) eqn:Hc.
    + apply N.eqb_eq in Hc. subst c. simpl app. now rewrite quoted_quote, IH.
    + simpl app. now rewrite quoted_step, IH.
Qed.

(** Outside quotes a character that needs no quoting joins the field. *)
Lemma plain_step b fs c t :
  special c = false -> t <> [] ->
  reader_rows (Reader IN_FIELD b fs) (c :: t)
  = reader_rows (Reader IN_FIELD (b ++ [c]) fs) t.
Proof.
  intros Hc Ht. apply special_false in Hc as (Hcomma & _ & Hnl).
  cbn. rewrite Hnl, Hcomma. cbn. now rewrite ends_line_plain.
Qed.

Lemma plain_body f : forall b fs tl,
  existsb special f = false -> tl <> [] ->
  reader_rows (Reader IN_FIELD b fs) (f ++ tl)
  = reader_rows (Reader IN_FIELD (b ++ f) fs) tl.
Proof.
  induction f as [|c f IH]; intros b fs tl Hf Htl.
  - now rewrite app_nil_r.
  - simpl in Hf. apply orb_false_iff in Hf as [Hc Hf].
    replace (b ++ c :: f) with ((b ++ [c]) ++ f) by now rewrite <- app_assoc.
    simpl app. rewrite plain_step; [| exact Hc | now destruct f].
    now apply IH.
Qed.

Lemma open_quote fs t :
  reader_rows (Reader START_FIELD [] fs) (QUOTE :: t)
  = reader_rows (Reader IN_QUOTED_FIELD [] fs) t.
Proof. cbn. now destruct (ends_line QUOTE t). Qed.

Lemma close_quote b fs t :
  t <> [] ->
  reader_rows (Reader IN_QUOTED_FIELD b fs) (QUOTE :: t)
  = reader_rows (Reader QUOTE_IN_QUOTED_FIELD b fs) t.
Proof. intros Ht. cbn. now rewrite ends_line_plain. Qed.

Lemma field_text f fs tl :
  tl <> [] ->
  reader_rows (Reader START_FIELD [] fs) (join_append f false ++ tl)
  = reader_rows (pending f fs) tl.
Proof.
  intros Htl. unfold join_append, pending. simpl orb.
  destruct (existsb special f) eqn:Hf.
  - simpl app. rewrite open_quote, <- app_assoc, quoted_body.
    simpl app. now rewrite close_quote.
  - destruct f as [|c f]; [reflexivity |].
    simpl in Hf. apply orb_false_iff in Hf as [Hc Hf].
    pose proof (special_false c Hc) as (Hcomma & Hquote & Hnl).
    simpl app. cbn. rewrite Hnl, Hquote, Hcomma. cbn.
    rewrite ends_line_plain; [| exact Hnl | now destruct f].
    now apply (plain_body f [c]).
Qed.

Lemma pending_comma f fs tl :
  tl <> [] ->
  reader_rows (pending f fs) (COMMA :: tl)
  = reader_rows (Reader START_FIELD [] (fs ++ [f])) tl.
Proof.
  intros Htl. unfold pending.
  destruct (existsb special f); [| destruct f];
    cbn; now rewrite ends_line_plain.
Qed.

Lemma pending_crlf f fs tl :
  reader_rows (pending f fs) (CR :: LF :: tl)
  = rows ← reader_rows parse_reset tl; Ok ((fs ++ [f]) :: rows).
Proof.
  unfold pending.
  destruct (existsb special f); [| destruct f]; cbn; now destruct tl.
Qed.

Lemma app_cons_nonempty {A} (l t : list A) (x : A) : l ++ x :: t <> [].
Proof. now destruct l. Qed.

Lemma fields_text fs : forall done tl,
  fs <> [] ->
  reader_rows (Reader START_FIELD [] done) (join fs ++ CR :: LF :: tl)
  = rows ← reader_rows parse_reset tl; Ok ((done ++ fs) :: rows).
Proof.
  induction fs as [|f fs IH]; intros done tl Hne; [congruence |].
  destruct fs as [|g fs].
  - simpl join. rewrite field_text by discriminate. apply pending_crlf.
  - change (join (f :: g :: fs)) with (join_append f false ++ COMMA :: join (g :: fs)).
    rewrite <- app_assoc. rewrite field_text by discriminate.
    rewrite <- app_comm_cons, pending_comma by apply app_cons_nonempty.
    rewrite IH by discriminate.
    now replace ((done ++ [f]) ++ g :: fs) with (done ++ f :: g :: fs)
      by now rewrite <- app_assoc.
Qed.

(** A record begins like a field unless its first character ends a line. *)
Lemma record_start fs c t :
  newline c = false ->
  reader_rows (Reader START_RECORD [] fs) (c :: t)
  = reader_rows (Reader START_FIELD [] fs) (c :: t).
Proof.
  intros Hc. cbn. now rewrite Hc.
Qed.

Lemma join_head fs c t : join fs = c :: t -> newline c = false.
Proof.
  assert (Hja : forall f c t, join_append f false = c :: t -> newline c = false).
  { intros f c0 t0. unfold join_append. simpl orb.
    destruct (existsb special f) eqn:Hf.
    - intros H. injection H as <- _. reflexivity.
    - intros ->. simpl in Hf. apply orb_false_iff in Hf as [Hc _].
      now apply special_false in Hc. }
  destruct fs as [|f [|g fs]]; [discriminate | apply Hja |].
  change (join (f :: g :: fs)) with (join_append f false ++ COMMA :: join (g :: fs)).
  destruct (join_append f false) as [|c0 t0] eqn:Hf.
  - intros H. injection H as <- _. reflexivity.
  - intros H. injection H as <- _. now apply (Hja f c0 t0).
Qed.

(** One written row, followed by any text, reads back as that row
    followed by what the text reads as. *)
Lemma read_writerow row tl :
  csv_reader (writerow row ++ tl)
  = rows ← csv_reader tl; Ok (map py_str row :: rows).
Proof.
  unfold csv_reader, writerow.
  destruct (map py_str row) as [|f fs] eqn:Hrow.
  - cbn. now destruct tl.
  - destruct (join (f :: fs)) as [|c t] eqn:Hj.
    + cbn. destruct fs as [|g fs].
      * simpl in Hj. unfold join_append in Hj. simpl in Hj.
        destruct (existsb special f) eqn:Hf; [discriminate |]. subst f.
        now destruct tl.
      * change (join (f :: g :: fs)) with (join_append f false ++ COMMA :: join (g :: fs)) in Hj.
        now destruct (join_append f false).
    + rewrite <- app_assoc. simpl app. unfold parse_reset.
      rewrite record_start by (now apply (join_head (f :: fs) c t)).
      change (c :: t ++ CR :: LF :: tl) with ((c :: t) ++ CR :: LF :: tl).
      rewrite <- Hj. now rewrite fields_text.
Qed.

Lemma read_writerows rows : forall tl,
  csv_reader (writerows rows ++ tl)
  = rest ← csv_reader tl; Ok (map (map py_str) rows ++ rest).
Proof.
  induction rows as [|row rows IH]; intros tl.
  - simpl. now destruct (csv_reader tl).
  - unfold writerows. simpl flat_map. fold (writerows rows).
    rewrite <- app_assoc, read_writerow, IH.
    now destruct (csv_reader tl).
Qed.

(** Round trip: [csv.reader] over what [writerows] wrote yields the rows,
    each field as the text [str] gives it. *)
Lemma csv_round_trip rows :
  csv_reader (writerows rows) = Ok (map (map py_str) rows).
Proof.
  rewrite <- (app_nil_r (writerows rows)), read_writerows.
  cbn. now rewrite app_nil_r.
Qed.
End Csv.

(** ** The store operations *)

Section Store.

Ltac unfold_M :=
  unfold load_transactions, save_transactions, add_transaction, edit_transaction,
    search_transactions, read_file, write_file, append_file, lift,
    mbind, mret, M_bind, M_ret; cbn.

Lemma map_insert {A B} (f : A -> B) (l : list A) (i : nat) (x : A) :
  map f (<[i := x]> l) = <[i := f x]> (map f l).
Proof.
  revert i. induction l as [|a l IH]; intros [|i]; simpl; try reflexivity.
  now rewrite IH.
Qed.

Lemma as_text_loaded (fs : list text) : as_text (map Str fs) = map Str fs.
Proof.
  unfold as_text. f_equal. induction fs as [|f fs IH]; simpl; [reflexivity |].
  now rewrite IH.
Qed.

Lemma load_state st : snd (load_transactions st) = st.
Proof.
  destruct st as [t|]; [| reflexivity].
  unfold_M. now destruct (csv_reader t).
Qed.

Lemma load_some t :
  load_transactions (Some t) =
  (rows ← csv_reader t; Ok (map (map Str) rows), Some t).
Proof.
  unfold_M. now destruct (csv_reader t).
Qed.

(** Whatever loads is text: reading it as text changes nothing. *)
Lemma loaded_text st rows :
  fst (load_transactions st) = Ok rows -> map as_text rows = rows.
Proof.
  destruct st as [t|]; [| discriminate].
  rewrite load_some. simpl. destruct (csv_reader t) as [l|]; [| discriminate].
  cbn. intros H. injection H as <-.
  induction l as [|fs l IH]; simpl; [reflexivity |].
  now rewrite as_text_loaded, IH.
Qed.

Lemma load_written rows :
  load_transactions (Some (writerows rows))
  = (Ok (map as_text rows), Some (writerows rows)).
Proof.
  rewrite load_some, csv_round_trip. cbn. f_equal. f_equal.
  now rewrite map_map.
Qed.

(** The program only ever leaves no file, or the rows the writer wrote. *)
Lemma written_rows st :
  written st -> st = None \/ exists rows, st = Some (writerows rows).
Proof.
  induction 1 as [| t st _ IH | i new st _ IH | rows st _ _].
  - now left.
  - right. destruct IH as [-> | [rows ->]].
    + exists [row_of t]. unfold_M. unfold writerows. simpl flat_map.
      now rewrite app_nil_r.
    + exists (rows ++ [row_of t]). unfold_M. unfold writerows.
      rewrite flat_map_app. simpl flat_map. now rewrite app_nil_r.
  - destruct IH as [-> | [rows ->]]; [now left | right].
    unfold edit_transaction, mbind, M_bind. rewrite load_written.
    unfold lift. destruct (setitem (map as_text rows) (i - 1) new) as [rows'|].
    + now exists rows'.
    + now exists rows.
  - right. now exists rows.
Qed.

(** [edit_transaction] in terms of what loads and of the item assignment. *)
Lemma edit_loaded st rows i new :
  fst (load_transactions st) = Ok rows ->
  edit_transaction i new st =
  match setitem rows (i - 1) new with
  | Ok rows' => (Ok tt, Some (writerows rows'))
  | Raise e => (Raise e, st)
  end.
Proof.
  intros Hload. unfold edit_transaction, mbind, M_bind.
  pose proof (load_state st) as Hst.
  destruct (load_transactions st) as [r st']. simpl in *. subst r st'.
  unfold lift. now destruct (setitem rows (i - 1) new).
Qed.

Lemma setitem_in_range {A} (l : list A) (i : Z) (x : A) :
  (0 <= i < Z.of_nat (length l))%Z ->
  setitem l i x = Ok (<[Z.to_nat i := x]> l).
Proof.
  intros Hi. unfold setitem, norm_index. cbv zeta.
  assert (H0 : (i <? 0)%Z = false) by (apply Z.ltb_ge; lia).
  assert (H1 : (Z.of_nat (length l) <=? i)%Z = false) by (apply Z.leb_gt; lia).
  rewrite H0. simpl. now rewrite H0, H1.
Qed.

Lemma setitem_out_of_range {A} (l : list A) (i : Z) (x : A) :
  (Z.of_nat (length l) <= i \/ i < - Z.of_nat (length l))%Z ->
  setitem l i x = Raise IndexError.
Proof.
  intros Hi. unfold setitem, norm_index. cbv zeta.
  destruct (i <? 0)%Z eqn:H0.
  - apply Z.ltb_lt in H0.
    assert (H1 : (i + Z.of_nat (length l) <? 0)%Z = true) by (apply Z.ltb_lt; lia).
    simpl. now rewrite H1.
  - apply Z.ltb_ge in H0.
    assert (H1 : (Z.of_nat (length l) <=? i)%Z = true) by (apply Z.leb_le; lia).
    simpl. rewrite H1. now rewrite orb_true_r.
Qed.
End Store.

(** C1, as stated, fails: on the store of two records, editing position 0
    returns normally and the last record is replaced. *)
Lemma edit_position_zero_overwrites_last :
  fst (load_transactions two_records) = Ok [as_text (row_of salary); as_text (row_of food)]
  /\ fst (edit_transaction 0 rent two_records) = Ok tt
  /\ fst (load_transactions (snd (edit_transaction 0 rent two_records)))
     = Ok [as_text (row_of salary); as_text rent].
Proof. repeat split; reflexivity. Qed.

(** C1 (amended). On a store of N records, editing position N+1 raises
    IndexError, uncaught, and leaves the file as it was; so does editing
    position 0 when the store is empty. *)
Theorem edit_out_of_range (st : store) (rows : list (list value)) (new : list value) :
  fst (load_transactions st) = Ok rows ->
  edit_transaction (Z.of_nat (length rows) + 1) new st = (Raise IndexError, st)
  /\ (rows = [] -> edit_transaction 0 new st = (Raise IndexError, st)).
Proof.
  intros Hload. split; [| intros ->];
    rewrite (edit_loaded st _ _ _ Hload), setitem_out_of_range;
    try reflexivity; simpl; lia.
Qed.

(** On the store of two records, position 3; on an empty file, position 0. *)
Lemma edit_out_of_range_witness :
  fst (load_transactions two_records) = Ok [as_text (row_of salary); as_text (row_of food)]
  /\ edit_transaction 3 rent two_records = (Raise IndexError, two_records)
  /\ edit_transaction 0 rent (Some []) = (Raise IndexError, Some []).
Proof.
  split; [reflexivity |]. split.
  - apply (edit_out_of_range two_records
             [as_text (row_of salary); as_text (row_of food)] rent).
    reflexivity.
  - apply (edit_out_of_range (Some []) [] rent); reflexivity.
Defined.




(** ** Search *)

Section Search.

Lemma text_eqb_eq a b : text_eqb a b = true <-> a = b.
Proof. unfold text_eqb. apply bool_decide_eq_true. Qed.

Lemma field_index_none key :
  field_index key = None ->
  text_eqb key (utf8 "date") = false
  /\ text_eqb key (utf8 "category") = false
  /\ text_eqb key (utf8 "amount") = false.
Proof.
  unfold field_index.
  destruct (text_eqb key (utf8 "date")); [discriminate |].
  destruct (text_eqb key (utf8 "category")); [discriminate |].
  destruct (text_eqb key (utf8 "amount")); [discriminate |].
  now intros _.
Qed.

(** A key that names no field sets no condition. *)
Lemma criteria_skip key v rest row :
  field_index key = None ->
  criteria_match ((key, v) :: rest) row = criteria_match rest row.
Proof.
  intros H. apply field_index_none in H as (H1 & H2 & H3).
  cbn [criteria_match]. unfold mismatch. now rewrite H1, H2, H3.
Qed.

Lemma criteria_remove key criteria row :
  field_index key = None ->
  criteria_match criteria row = criteria_match (remove_key key criteria) row.
Proof.
  intros Hkey. induction criteria as [|[k v] rest IH]; [reflexivity |].
  unfold remove_key. simpl List.filter. fold (remove_key key rest).
  destruct (text_eqb k key) eqn:Hk; simpl negb; cbv iota.
  - apply text_eqb_eq in Hk. subst k. now rewrite criteria_skip.
  - cbn [criteria_match]. now rewrite IH.
Qed.

Lemma search_loop_ext c1 c2 rows : forall found,
  (forall row, criteria_match c1 row = criteria_match c2 row) ->
  search_loop c1 rows found = search_loop c2 rows found.
Proof.
  induction rows as [|row rows IH]; intros found H; [reflexivity |].
  cbn [search_loop]. rewrite H.
  destruct (criteria_match c2 row) as [m|]; [| reflexivity].
  cbn. now apply IH.
Qed.

Lemma criteria_all_unknown criteria row :
  Forall (fun kv => field_index (fst kv) = None) criteria ->
  criteria_match criteria row = Ok true.
Proof.
  induction 1 as [|[k v] rest Hk _ IH]; [reflexivity |].
  now rewrite criteria_skip.
Qed.

Lemma search_loop_all criteria rows : forall found,
  (forall row, criteria_match criteria row = Ok true) ->
  search_loop criteria rows found = Ok (found ++ rows).
Proof.
  induction rows as [|row rows IH]; intros found H.
  - cbn. now rewrite app_nil_r.
  - cbn [search_loop]. rewrite H. cbn. rewrite IH by exact H.
    now rewrite <- app_assoc.
Qed.

Lemma getitem_lookup {A} (l : list A) (i : nat) (x : A) :
  l !! i = Some x -> getitem l (Z.of_nat i) = Ok x.
Proof.
  intros H. pose proof (lookup_lt_Some _ _ _ H) as Hlt.
  unfold getitem, norm_index. cbv zeta.
  assert (H0 : (Z.of_nat i <? 0)%Z = false) by (apply Z.ltb_ge; lia).
  assert (H1 : (Z.of_nat (length l) <=? Z.of_nat i)%Z = false)
    by (apply Z.leb_gt; lia).
  rewrite H0. simpl. rewrite H0, H1. simpl. now rewrite Nat2Z.id, H.
Qed.

(** A single criterion on a known field compares that field. *)
Lemma criteria_single key i s row x :
  field_index key = Some i -> row !! i = Some x ->
  criteria_match [(key, Str s)] row = Ok (value_eqb x (Str s)).
Proof.
  intros Hkey Hx. unfold field_index in Hkey.
  cbn [criteria_match]. unfold mismatch.
  destruct (text_eqb key (utf8 "date")) eqn:H1.
  - injection Hkey as <-. apply text_eqb_eq in H1. subst key.
    change (text_eqb (utf8 "date") (utf8 "category")) with false.
    change (text_eqb (utf8 "date") (utf8 "amount")) with false.
    change 0%Z with (Z.of_nat 0). rewrite (getitem_lookup _ _ _ Hx).
    unfold mbind, mret, result_bind, result_ret.
    now destruct (value_eqb x (Str s)).
  - destruct (text_eqb key (utf8 "category")) eqn:H2.
    + injection Hkey as <-. apply text_eqb_eq in H2. subst key.
      change (text_eqb (utf8 "category") (utf8 "amount")) with false.
      change 1%Z with (Z.of_nat 1). rewrite (getitem_lookup _ _ _ Hx).
      unfold mbind, mret, result_bind, result_ret.
      now destruct (value_eqb x (Str s)).
    + destruct (text_eqb key (utf8 "amount")) eqn:H3; [| discriminate].
      injection Hkey as <-.
      change 2%Z with (Z.of_nat 2). rewrite (getitem_lookup _ _ _ Hx).
      unfold mbind, mret, result_bind, result_ret.
      now destruct (value_eqb x (Str s)).
Qed.

Lemma has_field_eqb i s row x :
  row !! i = Some x -> has_field i s row = value_eqb x (Str s).
Proof. unfold has_field. intros ->. now destruct x. Qed.

Lemma search_loop_single key i s rows : forall found,
  field_index key = Some i ->
  Forall (fun row => (i < length row)%nat) rows ->
  search_loop [(key, Str s)] rows found
  = Ok (found ++ List.filter (has_field i s) rows).
Proof.
  induction rows as [|row rows IH]; intros found Hkey Hlen.
  - cbn. now rewrite app_nil_r.
  - inversion Hlen as [|? ? Hrow Hrows]; subst.
    destruct (lookup_lt_is_Some_2 row i Hrow) as [x Hx].
    cbn [search_loop]. rewrite (criteria_single key i s row x Hkey Hx). cbn.
    rewrite IH by assumption. simpl List.filter.
    rewrite (has_field_eqb i s row x Hx).
    destruct (value_eqb x (Str s)); [| reflexivity].
    now rewrite <- app_assoc.
Qed.
End Search.

(** C3. A key of the criteria outside date, category and amount sets no
    condition: the search gives what it gives with that key removed, and a
    criteria mapping of such keys only returns every record of the store. *)
Theorem unknown_key_ignored (st : store) (criteria : list (text * value))
    (key : text) :
  field_index key = None ->
  search_transactions criteria st = search_transactions (remove_key key criteria) st
  /\ (Forall (fun kv => field_index (fst kv) = None) criteria ->
      search_transactions criteria st = load_transactions st).
Proof.
  intros Hkey. unfold search_transactions, mbind, M_bind, lift.
  destruct (load_transactions st) as [[rows|e] st']; split; try reflexivity.
  - f_equal. apply search_loop_ext. intros row. now apply criteria_remove.
  - intros Hall. rewrite search_loop_all; [reflexivity |].
    intros row. now apply criteria_all_unknown.
Qed.

(** On the store of two records, with the key description. *)
Lemma unknown_key_ignored_witness :
  field_index (utf8 "description") = None
  /\ search_transactions
       [(utf8 "description", Str (utf8 "food")); (utf8 "category", Str INCOME)]
       two_records
     = search_transactions [(utf8 "category", Str INCOME)] two_records
  /\ search_transactions [(utf8 "description", Str (utf8 "food"))] two_records
     = load_transactions two_records.
Proof.
  split; [reflexivity |].
  pose proof (unknown_key_ignored two_records
    [(utf8 "description", Str (utf8 "food")); (utf8 "category", Str INCOME)]
    (utf8 "description") eq_refl) as [H1 _].
  pose proof (unknown_key_ignored two_records
    [(utf8 "description", Str (utf8 "food"))]
    (utf8 "description") eq_refl) as [_ H2].
  split; [exact H1 | apply H2].
  constructor; [reflexivity | constructor].
Defined.



(** ** Numbers and their text *)

Section NumberText.
Context {U : Unicode}.

Lemma digits_value_snoc ds d :
  digits_value (ds ++ [d]) = 10 * digits_value ds + (d - 48).
Proof. unfold digits_value. now rewrite fold_left_app. Qed.

Lemma pos_size_bound p : N.pos p < 2 ^ N.of_nat (Pos.size_nat p).
Proof.
  induction p as [p IH | p IH |]; simpl Pos.size_nat;
    rewrite ?Nat2N.inj_succ, ?N.pow_succ_r'; lia.
Qed.

(** [str] of a natural number: a non-empty run of ASCII digits whose value
    is the number. *)
Lemma dec_digits_spec fuel : forall n acc,
  n < 2 ^ N.of_nat (S fuel) ->
  exists ds, dec_digits (S fuel) n acc = ds ++ acc /\ ds <> []
             /\ forallb ascii_digit ds = true /\ digits_value ds = n.
Proof.
  assert (Hd : forall n, ascii_digit (48 + n mod 10) = true).
  { intros n. assert (H : n mod 10 < 10) by (apply N.mod_lt; discriminate).
    revert H. generalize (n mod 10). intros m Hm.
    unfold ascii_digit. apply andb_true_iff. split; apply N.leb_le; lia. }
  assert (Hsmall : forall n, n < 10 -> digits_value [48 + n mod 10] = n).
  { intros n Hn. rewrite N.mod_small by exact Hn. cbn. lia. }
  induction fuel as [|fuel IH]; intros n acc Hn.
  - exists [48 + n mod 10]. change (2 ^ N.of_nat 1) with 2 in Hn.
    simpl dec_digits. replace (n <? 10) with true by (symmetry; apply N.ltb_lt; lia).
    repeat split; [congruence | simpl; now rewrite Hd | apply Hsmall; lia].
  - simpl dec_digits. destruct (n <? 10) eqn:H10.
    + apply N.ltb_lt in H10. exists [48 + n mod 10].
      repeat split; [congruence | simpl; now rewrite Hd | now apply Hsmall].
    + apply N.ltb_ge in H10.
      destruct (IH (n / 10) ((48 + n mod 10) :: acc)) as (ds & Hds & Hne & Hall & Hval).
      { rewrite Nat2N.inj_succ, N.pow_succ_r' in Hn.
        apply N.Div0.div_lt_upper_bound. lia. }
      exists (ds ++ [48 + n mod 10]). repeat split.
      * simpl dec_digits in Hds. rewrite Hds. now rewrite <- app_assoc.
      * now destruct ds.
      * rewrite forallb_app, Hall. simpl. now rewrite Hd.
      * rewrite digits_value_snoc, Hval.
        assert (E : n = 10 * (n / 10) + n mod 10) by (apply N.div_mod; discriminate).
        revert E. generalize (n / 10) (n mod 10). intros q m E. lia.
Qed.

Lemma str_of_N_spec n :
  str_of_N n <> [] /\ forallb ascii_digit (str_of_N n) = true
  /\ digits_value (str_of_N n) = n.
Proof.
  unfold str_of_N.
  destruct (dec_digits_spec (N.size_nat n) n []) as (ds & Hds & Hne & Hall & Hval).
  - destruct n as [|p]; [reflexivity |].
    rewrite Nat2N.inj_succ, N.pow_succ_r'. pose proof (pos_size_bound p).
    simpl N.size_nat. lia.
  - rewrite Hds, app_nil_r. auto.
Qed.

Lemma plain_facts c :
  plain c = true ->
  (c <? 128) = true /\ ascii_space c = false /\ (c =? 95) = false.
Proof.
  unfold plain, ascii_digit, ascii_space.
  rewrite orb_true_iff, andb_true_iff, !N.leb_le, N.eqb_eq, N.ltb_lt.
  intros H. repeat split.
  - lia.
  - apply orb_false_iff. split; [apply andb_false_iff | apply N.eqb_neq]; try lia.
    destruct (N.le_gt_cases c 13); [left | right]; apply N.leb_gt; lia.
  - apply N.eqb_neq. lia.
Qed.

Lemma drop_while_plain s :
  forallb plain s = true -> drop_while ascii_space s = s.
Proof.
  destruct s as [|c t]; [reflexivity |]. simpl.
  intros H. apply andb_true_iff in H as [Hc _].
  apply plain_facts in Hc as (_ & -> & _). reflexivity.
Qed.

Lemma strip_plain s : forallb plain s = true -> strip s = s.
Proof.
  intros H. unfold strip. rewrite (drop_while_plain s H).
  rewrite drop_while_plain; [apply rev_involutive |].
  apply forallb_forall. intros c Hc. apply in_rev in Hc.
  rewrite forallb_forall in H. now apply H.
Qed.

Lemma drop_underscores_plain s : forall prev,
  (prev =? 95) = false -> forallb plain s = true ->
  drop_underscores prev s = Some s.
Proof.
  induction s as [|c t IH]; intros prev Hp Hs; simpl.
  - now rewrite Hp.
  - simpl in Hs. apply andb_true_iff in Hs as [Hc Ht].
    pose proof (plain_facts c Hc) as (_ & _ & H95).
    rewrite H95, Hp. simpl. now rewrite IH.
Qed.

Lemma numeric_text_plain s :
  s <> [] -> forallb plain s = true -> numeric_text s = Some s.
Proof.
  intros Hne Hs. unfold numeric_text, to_ascii.
  replace (forallb (fun c => c <? 128) s) with true.
  - rewrite (strip_plain s Hs). destruct s as [|c t]; [congruence |].
    now apply drop_underscores_plain.
  - symmetry. apply forallb_forall. intros c Hc.
    rewrite forallb_forall in Hs. now apply plain_facts, Hs.
Qed.

Lemma digits_plain ds :
  forallb ascii_digit ds = true -> forallb plain ds = true.
Proof.
  rewrite !forallb_forall. intros H c Hc. unfold plain. now rewrite (H c Hc).
Qed.

Lemma span_digits ds :
  forallb ascii_digit ds = true -> span ascii_digit ds = (ds, []).
Proof.
  induction ds as [|c t IH]; [reflexivity |]. simpl.
  intros H. apply andb_true_iff in H as [-> Ht]. now rewrite IH.
Qed.

Lemma split_sign_digits ds :
  forallb ascii_digit ds = true -> split_sign ds = (false, ds).
Proof.
  destruct ds as [|c t]; [reflexivity |]. simpl.
  intros H. apply andb_true_iff in H as [Hc _].
  unfold ascii_digit in Hc. rewrite andb_true_iff, !N.leb_le in Hc.
  replace (c =? 45) with false by (symmetry; apply N.eqb_neq; lia).
  now replace (c =? 43) with false by (symmetry; apply N.eqb_neq; lia).
Qed.

(** [int(str(n)) == n]. *)
Lemma int_of_text_str n : int_of_text (str_of_int n) = Ok n.
Proof.
  assert (Hpos : forall m, int_of_text (str_of_N m) = Ok (Z.of_N m)).
  { intros m. destruct (str_of_N_spec m) as (Hne & Hall & Hval).
    unfold int_of_text.
    rewrite numeric_text_plain by (auto using digits_plain).
    rewrite split_sign_digits by assumption. cbv beta iota.
    rewrite span_digits by assumption.
    destruct (str_of_N m) as [|c ds]; [congruence |]. now rewrite Hval. }
  destruct n as [|p|p]; simpl str_of_int.
  - apply (Hpos 0).
  - apply (Hpos (N.pos p)).
  - destruct (str_of_N_spec (N.pos p)) as (Hne & Hall & Hval).
    unfold int_of_text.
    rewrite numeric_text_plain; [| discriminate |].
    + simpl split_sign. cbv beta iota. rewrite span_digits by assumption.
      destruct (str_of_N (N.pos p)) as [|c ds]; [congruence |]. now rewrite Hval.
    + simpl. now apply digits_plain.
Qed.
End NumberText.



(** ** Binary64 arithmetic on whole numbers *)

Section Whole.
Local Open Scope Z_scope.

Lemma shl_xO p k : shl (xO p) k = xO (shl p k).
Proof. induction k as [|k IH]; [reflexivity |]. simpl. now rewrite IH. Qed.

Lemma shl_add p j k : shl (shl p j) k = shl p (j + k).
Proof. unfold shl. now rewrite Nat.add_comm, Nat.iter_add. Qed.

Lemma shl_digits p k :
  Zpos (digits2_pos (shl p k)) = Zpos (digits2_pos p) + Z.of_nat k.
Proof.
  induction k as [|k IH]; [simpl; lia |].
  change (shl p (S k)) with (xO (shl p k)). simpl digits2_pos. lia.
Qed.

Lemma shl_value p k : Zpos (shl p k) = Zpos p * 2 ^ Z.of_nat k.
Proof.
  induction k as [|k IH]; [simpl; lia |].
  change (shl p (S k)) with (xO (shl p k)).
  rewrite Nat2Z.inj_succ, Z.pow_succ_r by lia. lia.
Qed.

Lemma pos_iter_shl p q : Pos.iter xO p q = shl p (Pos.to_nat q).
Proof. unfold shl. now rewrite Pos2Nat.inj_iter. Qed.

Lemma iter_pos_nat {A} (f : A -> A) (n : positive) : forall x,
  SpecFloat.iter_pos f n x = Nat.iter (Pos.to_nat n) f x.
Proof.
  induction n as [n IH | n IH |]; intros x; simpl SpecFloat.iter_pos.
  - rewrite !IH, Pos2Nat.inj_xI, <- Nat.iter_add, <- Nat.iter_succ_r.
    f_equal. lia.
  - rewrite !IH, Pos2Nat.inj_xO, <- Nat.iter_add. f_equal. lia.
  - reflexivity.
Qed.

(** Shifting right over zero bits loses nothing. *)
Lemma shr_exact k : forall p,
  Nat.iter k shr_1 (Build_shr_record (Zpos (shl p k)) false false)
  = Build_shr_record (Zpos p) false false.
Proof.
  induction k as [|k IH]; intros p; [reflexivity |].
  rewrite Nat.iter_succ_r. change (shl p (S k)) with (xO (shl p k)).
  apply IH.
Qed.

Lemma fexp_small d : 1 <= d -> fexp 53 1024 d = d - 53.
Proof. intros Hd. unfold fexp, emin. lia. Qed.

(** A mantissa of exactly 53 bits with an exponent in range is kept. *)
Lemma round_aux_canonical s m e :
  Zpos (digits2_pos m) = 53 -> -1074 <= e <= 971 ->
  binary_round_aux 53 1024 s (Zpos m) e loc_Exact = S754_finite s m e.
Proof.
  intros Hm He.
  assert (Hshr : shr_fexp 53 1024 (Zpos m) e loc_Exact
                 = (Build_shr_record (Zpos m) false false, e)).
  { unfold shr_fexp. simpl Zdigits2. rewrite Hm.
    replace (fexp 53 1024 (53 + e) - e) with 0
      by (unfold fexp, emin; lia).
    reflexivity. }
  unfold binary_round_aux. rewrite Hshr. cbn [shr_m loc_of_shr_record round_nearest_even].
  rewrite Hshr. cbn [shr_m].
  replace (e <=? 1024 - 53) with true by (symmetry; apply Z.leb_le; lia).
  reflexivity.
Qed.

(** Rounding [p * 2^j * 2^-j], for [p] of at most 53 bits: the mantissa is
    aligned to 53 bits and nothing is lost. *)
Lemma binary_round_whole s p j :
  Zpos (digits2_pos p) <= 53 ->
  binary_round 53 1024 s (shl p j) (- Z.of_nat j)
  = S754_finite s (shl p (Z.to_nat (53 - Zpos (digits2_pos p))))
                (Zpos (digits2_pos p) - 53).
Proof.
  intros Hd. set (d := Zpos (digits2_pos p)) in *.
  assert (Hd1 : 1 <= d) by (unfold d; lia).
  assert (Hcan : Zpos (digits2_pos (shl p (Z.to_nat (53 - d)))) = 53)
    by (rewrite shl_digits; fold d; lia).
  unfold binary_round. rewrite shl_digits. fold d.
  replace (d + Z.of_nat j + - Z.of_nat j) with d by lia.
  rewrite fexp_small by exact Hd1.
  unfold shl_align.
  destruct (d - 53 - - Z.of_nat j) as [|q|q] eqn:Hdelta.
  - (* already aligned *)
    replace j with (Z.to_nat (53 - d)) by lia.
    replace (- Z.of_nat (Z.to_nat (53 - d))) with (d - 53) by lia.
    apply round_aux_canonical; [exact Hcan | lia].
  - (* more bits than needed: the low ones are zero, shift right *)
    unfold binary_round_aux.
    assert (Hshr : shr_fexp 53 1024 (Zpos (shl p j)) (- Z.of_nat j) loc_Exact
              = (Build_shr_record (Zpos (shl p (Z.to_nat (53 - d)))) false false,
                 d - 53)).
    { unfold shr_fexp. simpl Zdigits2. rewrite shl_digits. fold d.
      replace (d + Z.of_nat j + - Z.of_nat j) with d by lia.
      rewrite fexp_small by exact Hd1. rewrite Hdelta.
      unfold shr. cbn [shr_record_of_loc]. rewrite iter_pos_nat.
      replace (shl p j) with (shl (shl p (Z.to_nat (53 - d))) (Pos.to_nat q))
        by (rewrite shl_add; f_equal; lia).
      rewrite shr_exact. f_equal. lia. }
    rewrite Hshr.
    pose proof (round_aux_canonical s (shl p (Z.to_nat (53 - d))) (d - 53) Hcan
                  ltac:(lia)) as Hr.
    unfold binary_round_aux in Hr.
    assert (Hshr0 : shr_fexp 53 1024 (Zpos (shl p (Z.to_nat (53 - d)))) (d - 53) loc_Exact
                 = (Build_shr_record (Zpos (shl p (Z.to_nat (53 - d)))) false false, d - 53)).
    { unfold shr_fexp. simpl Zdigits2. rewrite Hcan.
      replace (fexp 53 1024 (53 + (d - 53)) - (d - 53)) with 0
        by (unfold fexp, emin; lia).
      reflexivity. }
    rewrite Hshr0 in Hr. exact Hr.
  - (* fewer bits: shift left *)
    rewrite pos_iter_shl, shl_add.
    replace (j + Pos.to_nat q)%nat with (Z.to_nat (53 - d)) by lia.
    apply round_aux_canonical; [exact Hcan | lia].
Qed.

Lemma digits_lower p : 2 ^ (Zpos (digits2_pos p) - 1) <= Zpos p.
Proof.
  induction p as [p IH | p IH |]; simpl digits2_pos; [| | simpl; lia];
    replace (Zpos (Pos.succ (digits2_pos p)) - 1)
      with (Z.succ (Zpos (digits2_pos p) - 1)) by lia;
    rewrite Z.pow_succ_r by lia; lia.
Qed.

Lemma digits_bound p : Zpos p < 2 ^ 53 -> Zpos (digits2_pos p) <= 53.
Proof.
  intros Hp. pose proof (digits_lower p) as Hl.
  destruct (Z_le_gt_dec (Zpos (digits2_pos p)) 53) as [H | H]; [exact H |].
  assert (2 ^ 53 <= 2 ^ (Zpos (digits2_pos p) - 1))
    by (apply Z.pow_le_mono_r; lia).
  lia.
Qed.

Lemma float_of_Z_pos p :
  Zpos p < 2 ^ 53 -> float_of_Z (Zpos p) = finite_of false p.
Proof.
  intros Hp. apply (binary_round_whole false p 0). now apply digits_bound.
Qed.

Lemma float_of_Z_neg p :
  Zpos p < 2 ^ 53 -> float_of_Z (Zneg p) = finite_of true p.
Proof.
  intros Hp. apply (binary_round_whole true p 0). now apply digits_bound.
Qed.

Lemma float_of_Z_signed s p :
  Zpos p < 2 ^ 53 -> float_of_Z (cond_Zopp s (Zpos p)) = finite_of s p.
Proof.
  destruct s; [apply float_of_Z_neg | apply float_of_Z_pos].
Qed.

(** Aligning the mantissa of a whole number to a lower exponent. *)
Lemma align_whole p e :
  let d := Zpos (digits2_pos p) in
  d <= 53 -> e <= d - 53 ->
  fst (shl_align (shl p (Z.to_nat (53 - d))) (d - 53) e) = shl p (Z.to_nat (- e)).
Proof.
  intros d Hd He. unfold shl_align.
  destruct (e - (d - 53)) as [|q|q] eqn:Hq; simpl fst.
  - f_equal. lia.
  - lia.
  - rewrite pos_iter_shl, shl_add. f_equal. lia.
Qed.

Lemma fadd_finite sa pa sb pb :
  Zpos pa < 2 ^ 53 -> Zpos pb < 2 ^ 53 ->
  Z.abs (cond_Zopp sa (Zpos pa) + cond_Zopp sb (Zpos pb)) < 2 ^ 53 ->
  fadd (finite_of sa pa) (finite_of sb pb)
  = float_of_Z (cond_Zopp sa (Zpos pa) + cond_Zopp sb (Zpos pb)).
Proof.
  intros Ha Hb Hab.
  pose proof (digits_bound pa Ha) as Hda. pose proof (digits_bound pb Hb) as Hdb.
  unfold fadd, finite_of, SFadd.
  set (ez := Z.min (Zpos (digits2_pos pa) - 53) (Zpos (digits2_pos pb) - 53)).
  rewrite (align_whole pa ez Hda), (align_whole pb ez Hdb) by (unfold ez; lia).
  set (J := Z.to_nat (- ez)).
  assert (Hez : ez = - Z.of_nat J) by (unfold J, ez; lia).
  assert (Hsum : cond_Zopp sa (Zpos (shl pa J)) + cond_Zopp sb (Zpos (shl pb J))
                 = (cond_Zopp sa (Zpos pa) + cond_Zopp sb (Zpos pb)) * 2 ^ Z.of_nat J).
  { rewrite !shl_value. destruct sa, sb; unfold cond_Zopp; ring. }
  rewrite Hsum, Hez. clear Hsum.
  destruct (cond_Zopp sa (Zpos pa) + cond_Zopp sb (Zpos pb)) as [|c|c].
  - reflexivity.
  - replace (Zpos c * 2 ^ Z.of_nat J) with (Zpos (shl c J)) by apply shl_value.
    rewrite float_of_Z_pos by exact Hab.
    apply binary_round_whole. now apply digits_bound.
  - replace (Zneg c * 2 ^ Z.of_nat J) with (Zneg (shl c J))
      by (rewrite <- !Pos2Z.opp_pos, shl_value; ring).
    rewrite float_of_Z_neg by exact Hab.
    apply binary_round_whole. now apply digits_bound.
Qed.

Lemma fsub_as_fadd sa ma ea sb mb eb :
  fsub (S754_finite sa ma ea) (S754_finite sb mb eb)
  = fadd (S754_finite sa ma ea) (S754_finite (negb sb) mb eb).
Proof.
  unfold fsub, fadd, SFsub, SFadd. f_equal. destruct sb; unfold cond_Zopp; simpl negb; lia.
Qed.

(** Adding and subtracting whole numbers is exact while everything stays
    below 2^53. *)
Lemma fadd_whole a b :
  Z.abs a < 2 ^ 53 -> Z.abs b < 2 ^ 53 -> Z.abs (a + b) < 2 ^ 53 ->
  fadd (float_of_Z a) (float_of_Z b) = float_of_Z (a + b).
Proof.
  intros Ha Hb Hab.
  destruct a as [|pa|pa], b as [|pb|pb]; try reflexivity.
  - change (0 + Zpos pb) with (Zpos pb). rewrite (float_of_Z_pos pb) by lia. reflexivity.
  - change (0 + Zneg pb) with (Zneg pb). rewrite (float_of_Z_neg pb) by lia. reflexivity.
  - rewrite Z.add_0_r, (float_of_Z_pos pa) by lia. reflexivity.
  - rewrite (float_of_Z_pos pa), (float_of_Z_pos pb) by lia.
    apply (fadd_finite false pa false pb); simpl cond_Zopp; lia.
  - rewrite (float_of_Z_pos pa), (float_of_Z_neg pb) by lia.
    apply (fadd_finite false pa true pb); simpl cond_Zopp; lia.
  - rewrite Z.add_0_r, (float_of_Z_neg pa) by lia. reflexivity.
  - rewrite (float_of_Z_neg pa), (float_of_Z_pos pb) by lia.
    apply (fadd_finite true pa false pb); simpl cond_Zopp; lia.
  - rewrite (float_of_Z_neg pa), (float_of_Z_neg pb) by lia.
    apply (fadd_finite true pa true pb); simpl cond_Zopp; lia.
Qed.

Lemma fsub_whole a b :
  Z.abs a < 2 ^ 53 -> Z.abs b < 2 ^ 53 -> Z.abs (a - b) < 2 ^ 53 ->
  fsub (float_of_Z a) (float_of_Z b) = float_of_Z (a - b).
Proof.
  intros Ha Hb Hab.
  destruct a as [|pa|pa], b as [|pb|pb]; try reflexivity.
  - rewrite (float_of_Z_pos pb) by lia. change (0 - Zpos pb) with (Zneg pb).
    now rewrite (float_of_Z_neg pb) by lia.
  - rewrite (float_of_Z_neg pb) by lia. change (0 - Zneg pb) with (Zpos pb).
    now rewrite (float_of_Z_pos pb) by lia.
  - rewrite Z.sub_0_r, (float_of_Z_pos pa) by lia. reflexivity.
  - rewrite (float_of_Z_pos pa), (float_of_Z_pos pb) by lia. unfold finite_of at 1 2.
    rewrite fsub_as_fadd. apply (fadd_finite false pa true pb); simpl cond_Zopp; lia.
  - rewrite (float_of_Z_pos pa), (float_of_Z_neg pb) by lia. unfold finite_of at 1 2.
    rewrite fsub_as_fadd. apply (fadd_finite false pa false pb); simpl cond_Zopp; lia.
  - rewrite Z.sub_0_r, (float_of_Z_neg pa) by lia. reflexivity.
  - rewrite (float_of_Z_neg pa), (float_of_Z_pos pb) by lia. unfold finite_of at 1 2.
    rewrite fsub_as_fadd. apply (fadd_finite true pa true pb); simpl cond_Zopp; lia.
  - rewrite (float_of_Z_neg pa), (float_of_Z_neg pb) by lia. unfold finite_of at 1 2.
    rewrite fsub_as_fadd. apply (fadd_finite true pa false pb); simpl cond_Zopp; lia.
Qed.
End Whole.

(** ** Balance *)

Section Balance.
Context {U : Unicode}.
Local Open Scope Z_scope.

Lemma whole_of_finite s p :
  Zpos p < 2 ^ 53 ->
  whole_of (finite_of s p) = Some (cond_Zopp s (Zpos p)).
Proof.
  intros Hp. apply digits_bound in Hp.
  unfold whole_of, finite_of.
  set (d := Zpos (digits2_pos p)) in *.
  destruct (0 <=? d - 53) eqn:He.
  - apply Z.leb_le in He.
    replace (Z.to_nat (53 - d)) with 0%nat by lia.
    replace (d - 53) with 0 by lia. simpl shl. do 2 f_equal. lia.
  - apply Z.leb_gt in He. rewrite shl_value.
    replace (- (d - 53)) with (Z.of_nat (Z.to_nat (53 - d))) by lia.
    rewrite Z.mod_mul, Z.div_mul by (apply Z.pow_nonzero; lia).
    reflexivity.
Qed.

(** Below 2^53 a whole number and its float determine each other. *)
Lemma whole_of_float_of_Z z :
  Z.abs z < 2 ^ 53 -> whole_of (float_of_Z z) = Some z.
Proof.
  intros Hz. destruct z as [|p|p]; [reflexivity | |].
  - rewrite float_of_Z_pos by lia. apply (whole_of_finite false). lia.
  - rewrite float_of_Z_neg by lia. apply (whole_of_finite true). lia.
Qed.

Lemma getitem_length {A} (l : list A) (i : nat) (x : A) :
  getitem l (Z.of_nat i) = Ok x -> l !! i = Some x.
Proof.
  unfold getitem, norm_index. cbv zeta.
  assert (H0 : (Z.of_nat i <? 0) = false) by (apply Z.ltb_ge; lia).
  rewrite H0. simpl. rewrite H0. simpl.
  destruct (Z.of_nat (length l) <=? Z.of_nat i); [discriminate |].
  rewrite Nat2Z.id. destruct (l !! i); [congruence | discriminate].
Qed.

Lemma value_eqb_str c s : value_eqb c (Str s) = true -> c = Str s.
Proof.
  destruct c as [x|n]; [| discriminate]. simpl.
  intros H. apply bool_decide_eq_true in H. now subst.
Qed.

(** One round of the loop of [show_balance] on a row whose amount reads. *)
Lemma balance_step row rows balance x :
  amount_of row = Ok x ->
  balance_loop (row :: rows) balance
  = balance_loop rows
      (if has_field 1 INCOME row then num_add balance x
       else if has_field 1 EXPENSE row then num_sub balance x
       else balance).
Proof.
  unfold amount_of. intros Hx.
  cbn [balance_loop].
  destruct (getitem row 2) as [a|] eqn:Ha; [| discriminate].
  cbn in Hx. cbn. rewrite Hx. cbn.
  assert (H2 : row !! 2%nat = Some a) by (now apply getitem_length).
  destruct (lookup_lt_is_Some_2 row 1) as [c Hc];
    [apply lookup_lt_Some in H2; lia |].
  change 1 with (Z.of_nat 1). rewrite (getitem_lookup _ _ _ Hc). cbn.
  rewrite !(has_field_eqb _ _ _ _ Hc).
  now destruct (value_eqb c (Str INCOME)), (value_eqb c (Str EXPENSE)).
Qed.

Lemma income_not_expense row :
  has_field 1 INCOME row = true -> has_field 1 EXPENSE row = false.
Proof.
  unfold has_field. destruct (row !! 1%nat) as [[x|]|]; try discriminate.
  intros H. apply text_eqb_eq in H. now subst.
Qed.

Lemma balance_whole rows : forall ns balance z,
  Forall2 (fun row n => amount_of row = Ok (float_of_Z n) /\ 0 <= n) rows ns ->
  to_float balance = float_of_Z z ->
  Z.abs z + fold_right Z.add 0 ns < 2 ^ 53 ->
  exists b, balance_loop rows balance = Ok b
    /\ to_float b
       = float_of_Z (z + category_total INCOME rows ns - category_total EXPENSE rows ns).
Proof.
  induction rows as [|row rows IH]; intros ns balance z Hrows Hb Hz.
  - exists balance. inversion Hrows; subst. split; [reflexivity |].
    simpl. now rewrite Hb, Z.add_0_r, Z.sub_0_r.
  - inversion Hrows as [|? n ? ns' [Hx Hn] Hrest]; subst.
    assert (Hsum : 0 <= fold_right Z.add 0 ns').
    { clear -Hrest. induction Hrest as [|? ? ? ? [_ ?] _ IH']; simpl; lia. }
    simpl fold_right in Hz.
    rewrite (balance_step row rows balance _ Hx). cbn [category_total].
    destruct (has_field 1 INCOME row) eqn:Hi.
    + rewrite (income_not_expense row Hi).
      assert (Hb' : to_float (num_add balance (float_of_Z n)) = float_of_Z (z + n)).
      { unfold num_add. simpl to_float. rewrite Hb. apply fadd_whole; lia. }
      destruct (IH ns' _ (z + n) Hrest Hb' ltac:(lia)) as (b & Hb1 & Hb2).
      exists b. split; [exact Hb1 |]. rewrite Hb2. f_equal; lia.
    + destruct (has_field 1 EXPENSE row) eqn:He.
      * assert (Hb' : to_float (num_sub balance (float_of_Z n)) = float_of_Z (z - n)).
        { unfold num_sub. simpl to_float. rewrite Hb. apply fsub_whole; lia. }
        destruct (IH ns' _ (z - n) Hrest Hb' ltac:(lia)) as (b & Hb1 & Hb2).
        exists b. split; [exact Hb1 |]. rewrite Hb2. f_equal; lia.
      * destruct (IH ns' balance z Hrest Hb ltac:(lia)) as (b & Hb1 & Hb2).
        exists b. split; [exact Hb1 |]. rewrite Hb2. f_equal; lia.
Qed.
End Balance.

Lemma category_total_bound label rows ns :
  Forall2 (fun (row : list value) (n : Z) => (0 <= n)%Z) rows ns ->
  (0 <= category_total label rows ns <= fold_right Z.add 0 ns)%Z.
Proof.
  induction 1 as [|row n rows ns Hn _ IH]; simpl; [lia |].
  destruct (has_field 1 label row); lia.
Qed.

(** C2 does not hold of the code: [show_balance] converts the amount of
    every row before it looks at the category, so a row of another category
    whose amount is no number raises ValueError; [show_expenses] and
    [show_profit], which convert after the test, skip the same row. *)
Theorem balance_reads_amount_before_category (U : Unicode) :
  fst (load_transactions other_category)
    = Ok [[Str (utf8 "2024-05-01"); Str (utf8 "Прочее"); Str (utf8 "abc");
           Str (utf8 "note")]]
  /\ fst (show_balance other_category) = Raise ValueError
  /\ fst (show_expenses other_category) = Ok ([], NInt 0)
  /\ fst (show_profit other_category) = Ok ([], NInt 0).
Proof. repeat split; reflexivity. Qed.

(** C6, as stated, fails: with incomes 10^16, 1, 1 and an expense 10^16
    in the order stored, the balance returned is 1, where the sums give 2
    (and the totals of [show_profit] and [show_expenses], both 10^16,
    differ by 0). *)
Lemma balance_rounds_large_amounts :
  fst (load_transactions large_amounts) = Ok large_rows
  /\ map (@amount_of ascii_table) large_rows
     = map (fun n => Ok (float_of_Z n)) [10 ^ 16; 1; 10 ^ 16; 1]%Z
  /\ (category_total INCOME large_rows [10 ^ 16; 1; 10 ^ 16; 1]
      - category_total EXPENSE large_rows [10 ^ 16; 1; 10 ^ 16; 1] = 2)%Z
  /\ fst (@show_balance ascii_table large_amounts) = Ok (NFloat (float_of_Z 1))
  /\ whole_of (float_of_Z 1) = Some 1%Z
  /\ snd <$> fst (@show_profit ascii_table large_amounts)
     = Ok (NFloat (float_of_Z (10 ^ 16)))
  /\ snd <$> fst (@show_expenses ascii_table large_amounts)
     = Ok (NFloat (float_of_Z (10 ^ 16))).
Proof. repeat split; vm_compute; reflexivity. Qed.

(** C6 (amended). When the amount of every stored record reads as a whole
    number that is not negative, and the amounts total less than 2^53,
    [show_balance] returns exactly the sum of the amounts of the Income rows
    minus the sum of the amounts of the Expense rows; rows of any other
    category contribute nothing. *)
Theorem balance_of_whole_amounts (U : Unicode) (st : store)
    (rows : list (list value)) (ns : list Z) :
  fst (load_transactions st) = Ok rows ->
  Forall2 (fun row n => amount_of row = Ok (float_of_Z n) /\ (0 <= n)%Z) rows ns ->
  (fold_right Z.add 0 ns < 2 ^ 53)%Z ->
  exists b,
    fst (show_balance st) = Ok b
    /\ to_float b
       = float_of_Z (category_total INCOME rows ns - category_total EXPENSE rows ns)
    /\ whole_of (to_float b)
       = Some (category_total INCOME rows ns - category_total EXPENSE rows ns)%Z.
Proof.
  intros Hload Hrows Hsum.
  destruct (balance_whole rows ns (NInt 0) 0%Z Hrows eq_refl) as (b & Hb1 & Hb2);
    [simpl; lia |].
  assert (Hpos : Forall2 (fun (row : list value) (n : Z) => (0 <= n)%Z) rows ns).
  { clear -Hrows. induction Hrows as [|? ? ? ? [_ ?] _ IH]; constructor; auto. }
  pose proof (category_total_bound INCOME rows ns Hpos).
  pose proof (category_total_bound EXPENSE rows ns Hpos).
  exists b. split; [| split].
  - unfold show_balance, mbind, M_bind, lift.
    pose proof (load_state st) as Hst.
    destruct (load_transactions st) as [r st']. simpl in *. subst r st'.
    exact Hb1.
  - rewrite Hb2. f_equal; lia.
  - rewrite Hb2. rewrite whole_of_float_of_Z by lia. f_equal; lia.
Qed.

(** On the store of two records: 1000 - 500. *)
Lemma balance_of_whole_amounts_witness :
  fst (load_transactions two_records)
    = Ok [as_text (row_of salary); as_text (row_of food)]
  /\ exists b,
    fst (@show_balance ascii_table two_records) = Ok b
    /\ to_float b = float_of_Z 500
    /\ whole_of (to_float b) = Some 500%Z.
Proof.
  split; [reflexivity |].
  apply (balance_of_whole_amounts ascii_table two_records
           [as_text (row_of salary); as_text (row_of food)] [1000; 500]%Z).
  - reflexivity.
  - repeat constructor; vm_compute; congruence.
  - reflexivity.
Defined.

(** * Further properties *)

(** ** Saving, loading, editing *)

Section Files.

Lemma load_after_save rows st :
  load_transactions (snd (save_transactions rows st))
  = (Ok (map as_text rows), Some (writerows rows)).
Proof. apply load_written. Qed.

Lemma as_text_rows (fss : list (list text)) :
  map as_text (map (map Str) fss) = map (map Str) fss.
Proof.
  induction fss as [|fs fss IH]; simpl; [reflexivity |].
  now rewrite as_text_loaded, IH.
Qed.

Lemma setitem_from_end {A} (l : list A) (i : Z) (x : A) :
  (- Z.of_nat (length l) <= i < 0)%Z ->
  setitem l i x = Ok (<[Z.to_nat (i + Z.of_nat (length l)) := x]> l).
Proof.
  intros Hi. unfold setitem, norm_index. cbv zeta.
  assert (H0 : (i <? 0)%Z = true) by (apply Z.ltb_lt; lia).
  assert (H1 : (i + Z.of_nat (length l) <? 0)%Z = false) by (apply Z.ltb_ge; lia).
  assert (H2 : (Z.of_nat (length l) <=? i + Z.of_nat (length l))%Z = false)
    by (apply Z.leb_gt; lia).
  rewrite H0. simpl. now rewrite H1, H2.
Qed.

Lemma load_after_edit st rows i new rows' :
  fst (load_transactions st) = Ok rows ->
  setitem rows (i - 1) new = Ok rows' ->
  edit_transaction i new st = (Ok tt, Some (writerows rows'))
  /\ fst (load_transactions (Some (writerows rows'))) = Ok (map as_text rows').
Proof.
  intros Hload Hset. rewrite (edit_loaded st _ _ _ Hload), Hset.
  split; [reflexivity |]. now rewrite load_written.
Qed.

Lemma check_number_spec {U : Unicode} s c :
  check_transaction_number_input s c = true <->
  exists p, int_of_text s = Ok p /\ (1 <= p <= c)%Z.
Proof.
  unfold check_transaction_number_input. split.
  - destruct (int_of_text s) as [p|]; [| discriminate].
    intros H. apply andb_true_iff in H as [H1 H2].
    exists p. split; [reflexivity | lia].
  - intros (p & -> & Hp). apply andb_true_iff. split; lia.
Qed.
End Files.







(** X5. [check_transaction_number_input] accepts the decimal text of a
    number exactly when the number lies between 1 and the count, and
    accepts nothing at all when the count is zero. *)
Theorem number_check_on_numerals (U : Unicode) (n c : Z) (s : text) :
  check_transaction_number_input (str_of_int n) c = ((1 <=? n)%Z && (n <=? c)%Z)
  /\ check_transaction_number_input s 0 = false.
Proof.
  split.
  - unfold check_transaction_number_input. now rewrite int_of_text_str.
  - unfold check_transaction_number_input.
    destruct (int_of_text s) as [p|]; [| reflexivity].
    apply andb_false_iff. destruct (1 <=? p)%Z eqn:H1; [right | now left].
    apply Z.leb_gt. apply Z.leb_le in H1. lia.
Qed.

(** ** Searching *)

Section Criteria.

Lemma field_index_cases key i :
  field_index key = Some i ->
  (key = utf8 "date" /\ i = 0%nat) \/ (key = utf8 "category" /\ i = 1%nat)
  \/ (key = utf8 "amount" /\ i = 2%nat).
Proof.
  unfold field_index.
  destruct (text_eqb key (utf8 "date")) eqn:H1.
  - apply text_eqb_eq in H1. intros [= <-]. now left.
  - destruct (text_eqb key (utf8 "category")) eqn:H2.
    + apply text_eqb_eq in H2. intros [= <-]. right. now left.
    + destruct (text_eqb key (utf8 "amount")) eqn:H3; [| discriminate].
      apply text_eqb_eq in H3. intros [= <-]. right. now right.
Qed.

(** One round of the inner loop: the criterion's field is fetched and
    compared, whatever the criteria still to come. *)
Lemma criteria_step key v rest row :
  criteria_match ((key, v) :: rest) row
  = match field_index key with
    | Some i =>
      x ← getitem row (Z.of_nat i);
      if value_eqb x v then criteria_match rest row else Ok false
    | None => criteria_match rest row
    end.
Proof.
  destruct (field_index key) as [i|] eqn:Hkey; [| now apply criteria_skip].
  cbn [criteria_match]. unfold mismatch.
  destruct (field_index_cases key i Hkey) as [[-> ->] | [[-> ->] | [-> ->]]].
  - change (text_eqb (utf8 "date") (utf8 "date")) with true.
    change (text_eqb (utf8 "date") (utf8 "category")) with false.
    change (text_eqb (utf8 "date") (utf8 "amount")) with false.
    change (Z.of_nat 0) with 0%Z.
    destruct (getitem row 0) as [x|]; [| reflexivity].
    unfold mbind, mret, result_bind, result_ret.
    now destruct (value_eqb x v).
  - change (text_eqb (utf8 "category") (utf8 "date")) with false.
    change (text_eqb (utf8 "category") (utf8 "category")) with true.
    change (text_eqb (utf8 "category") (utf8 "amount")) with false.
    change (Z.of_nat 1) with 1%Z.
    destruct (getitem row 1) as [x|]; [| reflexivity].
    unfold mbind, mret, result_bind, result_ret.
    now destruct (value_eqb x v).
  - change (text_eqb (utf8 "amount") (utf8 "date")) with false.
    change (text_eqb (utf8 "amount") (utf8 "category")) with false.
    change (text_eqb (utf8 "amount") (utf8 "amount")) with true.
    change (Z.of_nat 2) with 2%Z.
    destruct (getitem row 2) as [x|]; [| reflexivity].
    unfold mbind, mret, result_bind, result_ret.
    now destruct (value_eqb x v).
Qed.

Lemma getitem_short {A} (l : list A) (i : nat) :
  (length l <= i)%nat -> getitem l (Z.of_nat i) = Raise IndexError.
Proof.
  intros Hi. unfold getitem, norm_index. cbv zeta.
  assert (H0 : (Z.of_nat i <? 0)%Z = false) by (apply Z.ltb_ge; lia).
  assert (H1 : (Z.of_nat (length l) <=? Z.of_nat i)%Z = true)
    by (apply Z.leb_le; lia).
  rewrite H0. simpl. rewrite H0, H1. reflexivity.
Qed.

Lemma getitem_raises {A} (l : list A) (i : Z) e :
  getitem l i = Raise e -> e = IndexError.
Proof.
  unfold getitem. destruct (norm_index l i) as [j|]; [| now intros [= <-]].
  destruct (l !! j); [discriminate | now intros [= <-]].
Qed.

Lemma criteria_conjunction criteria row :
  (3 <= length row)%nat ->
  criteria_match criteria row = Ok (forallb (holds row) criteria).
Proof.
  intros Hlen. induction criteria as [|[key v] rest IH]; [reflexivity |].
  rewrite criteria_step. simpl forallb. unfold holds at 1. simpl fst. simpl snd.
  destruct (field_index key) as [i|] eqn:Hkey; [| exact IH].
  assert (Hi : (i < length row)%nat)
    by (destruct (field_index_cases key i Hkey) as [[_ ->] | [[_ ->] | [_ ->]]]; lia).
  destruct (lookup_lt_is_Some_2 row i Hi) as [x Hx].
  rewrite (getitem_lookup _ _ _ Hx), Hx.
  unfold mbind, result_bind. now destruct (value_eqb x v).
Qed.

Lemma criteria_raises criteria row e :
  criteria_match criteria row = Raise e -> e = IndexError.
Proof.
  induction criteria as [|[key v] rest IH]; [discriminate |].
  rewrite criteria_step. destruct (field_index key) as [i|]; [| exact IH].
  destruct (getitem row (Z.of_nat i)) as [x|] eqn:Hx.
  - unfold mbind, result_bind. destruct (value_eqb x v); [exact IH | discriminate].
  - intros [= <-]. now apply getitem_raises in Hx.
Qed.

Lemma search_loop_filter criteria rows : forall found,
  Forall (fun row => (3 <= length row)%nat) rows ->
  search_loop criteria rows found
  = Ok (found ++ List.filter (fun row => forallb (holds row) criteria) rows).
Proof.
  induction rows as [|row rows IH]; intros found Hlen.
  - cbn. now rewrite app_nil_r.
  - inversion Hlen as [|? ? Hrow Hrows]; subst.
    cbn [search_loop]. rewrite (criteria_conjunction criteria row Hrow). cbn.
    rewrite IH by assumption. simpl List.filter.
    destruct (forallb (holds row) criteria); [| reflexivity].
    now rewrite <- app_assoc.
Qed.

Lemma search_loop_short key i v rest rows : forall found,
  field_index key = Some i ->
  Exists (fun row => (length row <= i)%nat) rows ->
  search_loop ((key, v) :: rest) rows found = Raise IndexError.
Proof.
  intros found Hkey Hex. revert found.
  induction Hex as [row rows Hrow | row rows _ IH]; intros found;
    cbn [search_loop].
  - rewrite criteria_step, Hkey, (getitem_short row i Hrow). reflexivity.
  - destruct (criteria_match ((key, v) :: rest) row) as [m|e] eqn:Hm.
    + cbn. apply IH.
    + apply criteria_raises in Hm. now subst e.
Qed.

(** What loads holds strings only. *)
Lemma loaded_field st rows row (i : nat) x :
  fst (load_transactions st) = Ok rows -> In row rows -> row !! i = Some x ->
  exists s, x = Str s.
Proof.
  intros Hload Hin Hx. apply loaded_text in Hload.
  assert (Hrow : as_text row = row).
  { clear Hx. induction rows as [|r rows IH]; [destruct Hin |].
    simpl in Hload. injection Hload as Hr Hrows.
    destruct Hin as [-> | Hin]; [exact Hr | now apply IH]. }
  rewrite <- Hrow in Hx. unfold as_text in Hx.
  rewrite list_lookup_fmap in Hx.
  destruct (map py_str row !! i) as [s|]; [| discriminate].
  injection Hx as <-. now exists s.
Qed.

Lemma search_after_load st rows criteria :
  fst (load_transactions st) = Ok rows ->
  search_transactions criteria st = (search_loop criteria rows [], st).
Proof.
  intros Hload. unfold search_transactions, mbind, M_bind.
  pose proof (load_state st) as Hst.
  destruct (load_transactions st) as [r st']. simpl in *. now subst r st'.
Qed.
End Criteria.

(** X6. The criteria are conjoined: on a store whose records have three
    fields or more, a search returns, in stored order, the records that
    meet every criterion whose key is date, category or amount. *)
Theorem search_conjoins_criteria (st : store) (rows : list (list value))
    (criteria : list (text * value)) :
  fst (load_transactions st) = Ok rows ->
  Forall (fun row => (3 <= length row)%nat) rows ->
  search_transactions criteria st
  = (Ok (List.filter (fun row => forallb (holds row) criteria) rows), st).
Proof.
  intros Hload Hlen.
  now rewrite (search_after_load st rows criteria Hload), search_loop_filter.
Qed.

(** On the store of two records: Expense rows dated 2024-05-02, and
    Income rows dated 2024-05-02. *)
Lemma search_conjoins_criteria_witness :
  search_transactions
    [(utf8 "category", Str EXPENSE); (utf8 "date", Str (utf8 "2024-05-02"))]
    two_records
  = (Ok [as_text (row_of food)], two_records)
  /\ search_transactions
       [(utf8 "category", Str INCOME); (utf8 "date", Str (utf8 "2024-05-02"))]
       two_records
     = (Ok [], two_records).
Proof.
  split.
  - apply (search_conjoins_criteria two_records
             [as_text (row_of salary); as_text (row_of food)]);
      [reflexivity | repeat constructor].
  - apply (search_conjoins_criteria two_records
             [as_text (row_of salary); as_text (row_of food)]);
      [reflexivity | repeat constructor].
Defined.



(** X8. A record too short to have the field of the first criterion, as
    the empty record a blank line of the file loads as, makes the search
    raise IndexError, wherever in the store the record is. *)
Theorem search_short_record (st : store) (rows : list (list value))
    (key : text) (i : nat) (v : value) (criteria : list (text * value)) :
  fst (load_transactions st) = Ok rows ->
  field_index key = Some i ->
  Exists (fun row => (length row <= i)%nat) rows ->
  search_transactions ((key, v) :: criteria) st = (Raise IndexError, st).
Proof.
  intros Hload Hkey Hex.
  now rewrite (search_after_load st rows _ Hload), (search_loop_short key i).
Qed.

(** The record of [salary] followed by a blank line. *)
Lemma search_short_record_witness :
  fst (load_transactions (Some (writerow (row_of salary) ++ [CR; LF])))
    = Ok [as_text (row_of salary); []]
  /\ search_transactions [(utf8 "date", Str (utf8 "2024-05-01"))]
       (Some (writerow (row_of salary) ++ [CR; LF]))
     = (Raise IndexError, Some (writerow (row_of salary) ++ [CR; LF])).
Proof.
  split; [reflexivity |].
  apply (search_short_record _ [as_text (row_of salary); []] (utf8 "date") 0);
    [reflexivity | reflexivity |].
  apply Exists_cons_tl, Exists_cons_hd. simpl. lia.
Defined.

(** ** The totals *)

Section Totals.
Context {U : Unicode}.
Local Open Scope Z_scope.

Lemma amount_of_length row x : amount_of row = Ok x -> (3 <= length row)%nat.
Proof.
  unfold amount_of. destruct (getitem row 2) as [a|] eqn:Ha; [| discriminate].
  intros _. change 2 with (Z.of_nat 2) in Ha.
  apply getitem_length, lookup_lt_Some in Ha. lia.
Qed.

Lemma after_load {A} (f : list (list value) -> result A) st rows :
  fst (load_transactions st) = Ok rows ->
  (transactions ← load_transactions; lift (f transactions)) st = (f rows, st).
Proof.
  intros Hload. unfold mbind, M_bind, lift.
  pose proof (load_state st) as Hst.
  destruct (load_transactions st) as [r st']. simpl in *. now subst r st'.
Qed.

(** The loop of [show_balance] stops at a row without an amount field. *)
Lemma balance_short good : forall short rest balance,
  Forall (fun row => exists x, amount_of row = Ok x) good ->
  (length short < 3)%nat ->
  balance_loop (good ++ short :: rest) balance = Raise IndexError.
Proof.
  induction good as [|row good IH]; intros short rest balance Hgood Hshort.
  - cbn [app balance_loop]. change 2 with (Z.of_nat 2).
    rewrite getitem_short by lia. reflexivity.
  - inversion Hgood as [|? ? [x Hx] Hgood']; subst.
    rewrite <- app_comm_cons, (balance_step row _ balance x Hx).
    now apply IH.
Qed.

(** One round of the loop of [show_expenses] and [show_profit]. *)
Lemma category_step label row rows total kept :
  (2 <= length row)%nat ->
  category_loop label (row :: rows) total kept
  = if has_field 1 label row
    then amount ← amount_of row;
         category_loop label rows (num_add total amount) (kept ++ [row])
    else category_loop label rows total kept.
Proof.
  intros Hlen. destruct (lookup_lt_is_Some_2 row 1 ltac:(lia)) as [c Hc].
  cbn [category_loop]. change 1 with (Z.of_nat 1).
  rewrite (getitem_lookup _ _ _ Hc), (has_field_eqb _ _ _ _ Hc).
  unfold mbind at 1, result_bind at 1.
  destruct (value_eqb c (Str label)); [| reflexivity].
  unfold amount_of. now destruct (getitem row 2).
Qed.

Lemma category_total_nonneg label rows ns :
  category_amounts label rows ns -> 0 <= category_total label rows ns.
Proof.
  induction 1 as [|row n rows ns (_ & Hn & _) _ IH]; simpl; [lia |].
  destruct (has_field 1 label row); lia.
Qed.

Lemma category_whole label rows : forall ns total kept z,
  category_amounts label rows ns ->
  to_float total = float_of_Z z ->
  Z.abs z + category_total label rows ns < 2 ^ 53 ->
  exists t,
    category_loop label rows total kept
    = Ok (kept ++ List.filter (has_field 1 label) rows, t)
    /\ to_float t = float_of_Z (z + category_total label rows ns).
Proof.
  induction rows as [|row rows IH]; intros ns total kept z Hrows Ht Hz.
  - exists total. inversion Hrows; subst. split.
    + cbn. now rewrite app_nil_r.
    + simpl. now rewrite Ht, Z.add_0_r.
  - inversion Hrows as [|? n ? ns' (Hlen & Hn & Hx) Hrest]; subst.
    pose proof (category_total_nonneg label rows ns' Hrest) as Hpos.
    rewrite (category_step label row rows total kept Hlen).
    cbn [category_total] in *. simpl List.filter.
    destruct (has_field 1 label row) eqn:Hin.
    + rewrite (Hx eq_refl). unfold mbind, result_bind.
      assert (Ht' : to_float (num_add total (float_of_Z n)) = float_of_Z (z + n)).
      { unfold num_add. simpl to_float. rewrite Ht. apply fadd_whole; lia. }
      destruct (IH ns' _ (kept ++ [row]) (z + n) Hrest Ht' ltac:(lia))
        as (t & Ht1 & Ht2).
      exists t. split.
      * rewrite Ht1. now rewrite <- app_assoc.
      * rewrite Ht2. f_equal. lia.
    + destruct (IH ns' total kept z Hrest Ht ltac:(lia)) as (t & Ht1 & Ht2).
      exists t. split; [exact Ht1 |]. rewrite Ht2. f_equal; lia.
Qed.

Lemma category_total_of label st rows ns :
  fst (load_transactions st) = Ok rows ->
  category_amounts label rows ns ->
  category_total label rows ns < 2 ^ 53 ->
  exists total,
    (transactions ← load_transactions;
     lift (category_loop label transactions (NInt 0) [])) st
    = (Ok (List.filter (has_field 1 label) rows, total), st)
    /\ to_float total = float_of_Z (category_total label rows ns)
    /\ whole_of (to_float total) = Some (category_total label rows ns).
Proof.
  intros Hload Hrows Hsum.
  pose proof (category_total_nonneg label rows ns Hrows) as Hpos.
  destruct (category_whole label rows ns (NInt 0) [] 0 Hrows eq_refl)
    as (t & Ht1 & Ht2); [simpl; lia |].
  exists t. rewrite (after_load _ st rows Hload), Ht1, Ht2. simpl.
  split; [reflexivity |]. split; [reflexivity |].
  apply whole_of_float_of_Z. lia.
Qed.

Lemma amounts_of_category label rows ns :
  Forall2 (fun row n => amount_of row = Ok (float_of_Z n) /\ 0 <= n) rows ns ->
  category_amounts label rows ns.
Proof.
  induction 1 as [|row n rows ns [Hx Hn] _ IH]; constructor; [| exact IH].
  apply amount_of_length in Hx as Hlen. repeat split; [lia | exact Hn | now intros _].
Qed.
End Totals.

(** X9. [show_balance] reads the amount field of every record: a record
    of fewer than three fields, as the empty record of a blank line, makes
    it raise IndexError once the records before it have read. *)
Theorem balance_short_record (U : Unicode) (st : store)
    (good rest : list (list value)) (short : list value) :
  fst (load_transactions st) = Ok (good ++ short :: rest) ->
  Forall (fun row => exists x, amount_of row = Ok x) good ->
  (length short < 3)%nat ->
  show_balance st = (Raise IndexError, st).
Proof.
  intros Hload Hgood Hshort. unfold show_balance.
  now rewrite (after_load _ st _ Hload), balance_short.
Qed.

(** The record of [salary] followed by a blank line. *)
Lemma balance_short_record_witness :
  @show_balance ascii_table (Some (writerow (row_of salary) ++ [CR; LF]))
  = (Raise IndexError, Some (writerow (row_of salary) ++ [CR; LF])).
Proof.
  apply (balance_short_record ascii_table _ [as_text (row_of salary)] [] []).
  - reflexivity.
  - constructor; [| constructor]. eexists. vm_compute. reflexivity.
  - simpl. lia.
Defined.

(** X10. [show_expenses] returns the Expense records in stored order and
    their total: exactly the sum of their amounts when these are whole
    numbers, not negative, that sum to less than 2^53.  The amount field of
    a record of another category is not read. *)
Theorem expenses_of_whole_amounts (U : Unicode) (st : store)
    (rows : list (list value)) (ns : list Z) :
  fst (load_transactions st) = Ok rows ->
  category_amounts EXPENSE rows ns ->
  (category_total EXPENSE rows ns < 2 ^ 53)%Z ->
  exists total,
    show_expenses st = (Ok (List.filter (has_field 1 EXPENSE) rows, total), st)
    /\ to_float total = float_of_Z (category_total EXPENSE rows ns)
    /\ whole_of (to_float total) = Some (category_total EXPENSE rows ns).
Proof. apply category_total_of. Qed.

(** On the store of two records, with an amount the first record does
    not have: the one Expense record, 500. *)
Lemma expenses_of_whole_amounts_witness :
  exists total,
    @show_expenses ascii_table two_records
    = (Ok ([as_text (row_of food)], total), two_records)
    /\ to_float total = float_of_Z 500
    /\ whole_of (to_float total) = Some 500%Z.
Proof.
  apply (expenses_of_whole_amounts ascii_table two_records
           [as_text (row_of salary); as_text (row_of food)] [7; 500]%Z).
  - reflexivity.
  - repeat constructor; simpl; try lia; discriminate.
  - reflexivity.
Defined.

(** X11. [show_profit] returns the Income records in stored order and
    their total, exactly the sum of their amounts under the same
    conditions; the amount field of a record of another category is not
    read. *)
Theorem profit_of_whole_amounts (U : Unicode) (st : store)
    (rows : list (list value)) (ns : list Z) :
  fst (load_transactions st) = Ok rows ->
  category_amounts INCOME rows ns ->
  (category_total INCOME rows ns < 2 ^ 53)%Z ->
  exists total,
    show_profit st = (Ok (List.filter (has_field 1 INCOME) rows, total), st)
    /\ to_float total = float_of_Z (category_total INCOME rows ns)
    /\ whole_of (to_float total) = Some (category_total INCOME rows ns).
Proof. apply category_total_of. Qed.

(** On the store whose one record is of another category and has no
    number for an amount: no record, and the total 0. *)
Lemma profit_of_whole_amounts_witness :
  exists total,
    @show_profit ascii_table other_category = (Ok ([], total), other_category)
    /\ to_float total = float_of_Z 0
    /\ whole_of (to_float total) = Some 0%Z.
Proof.
  apply (profit_of_whole_amounts ascii_table other_category
           [[Str (utf8 "2024-05-01"); Str (utf8 "Прочее"); Str (utf8 "abc");
             Str (utf8 "note")]] [0]%Z).
  - reflexivity.
  - repeat constructor; simpl; try lia; discriminate.
  - reflexivity.
Defined.

(** X12. When every amount reads as a whole number, not negative, and the
    amounts total less than 2^53, the balance is the total of
    [show_profit] less the total of [show_expenses]. *)
Theorem balance_is_profit_less_expenses (U : Unicode) (st : store)
    (rows : list (list value)) (ns : list Z) :
  fst (load_transactions st) = Ok rows ->
  Forall2 (fun row n => amount_of row = Ok (float_of_Z n) /\ (0 <= n)%Z) rows ns ->
  (fold_right Z.add 0 ns < 2 ^ 53)%Z ->
  exists balance incomes profit expenses_rows expenses,
    fst (show_balance st) = Ok balance
    /\ fst (show_profit st) = Ok (incomes, profit)
    /\ fst (show_expenses st) = Ok (expenses_rows, expenses)
    /\ to_float balance = fsub (to_float profit) (to_float expenses).
Proof.
  intros Hload Hrows Hsum.
  assert (Hpos : Forall2 (fun (row : list value) (n : Z) => (0 <= n)%Z) rows ns).
  { clear -Hrows. induction Hrows as [|? ? ? ? [_ ?] _ IH]; constructor; auto. }
  pose proof (category_total_bound INCOME rows ns Hpos) as Hi.
  pose proof (category_total_bound EXPENSE rows ns Hpos) as He.
  destruct (balance_whole rows ns (NInt 0) 0%Z Hrows eq_refl) as (b & Hb1 & Hb2);
    [simpl; lia |].
  destruct (category_total_of INCOME st rows ns Hload
              (amounts_of_category INCOME rows ns Hrows) ltac:(lia))
    as (p & Hp1 & Hp2 & _).
  destruct (category_total_of EXPENSE st rows ns Hload
              (amounts_of_category EXPENSE rows ns Hrows) ltac:(lia))
    as (e & He1 & He2 & _).
  exists b, (List.filter (has_field 1 INCOME) rows), p,
         (List.filter (has_field 1 EXPENSE) rows), e.
  split; [| split; [| split]].
  - unfold show_balance. now rewrite (after_load _ st rows Hload).
  - unfold show_profit. now rewrite Hp1.
  - unfold show_expenses. now rewrite He1.
  - rewrite Hb2, Hp2, He2, fsub_whole by lia. f_equal; lia.
Qed.

(** On the store of two records. *)
Lemma balance_is_profit_less_expenses_witness :
  exists balance incomes profit expenses_rows expenses,
    fst (@show_balance ascii_table two_records) = Ok balance
    /\ fst (@show_profit ascii_table two_records) = Ok (incomes, profit)
    /\ fst (@show_expenses ascii_table two_records) = Ok (expenses_rows, expenses)
    /\ to_float balance = fsub (to_float profit) (to_float expenses).
Proof.
  apply (balance_is_profit_less_expenses ascii_table two_records
           [as_text (row_of salary); as_text (row_of food)] [1000; 500]%Z).
  - reflexivity.
  - repeat constructor; vm_compute; congruence.
  - reflexivity.
Defined.

(** ** The date pattern, in full *)

Section Dates.
Context {U : Unicode}.

Lemma among_one a c : among [One a] c = (c =? a).
Proof. unfold among. simpl. apply orb_false_r. Qed.

Lemma among_two a b c : among [One a; One b] c = ((c =? a) || (c =? b)).
Proof. unfold among. simpl. now rewrite orb_false_r. Qed.

Lemma among_span lo hi c : among [Span lo hi] c = ((lo <=? c) && (c <=? hi)).
Proof. unfold among. simpl. apply orb_false_r. Qed.

Lemma among_decimal c : among [Decimal] c = is_decimal c.
Proof. unfold among. simpl. apply orb_false_r. Qed.

Lemma in_among xs k k' :
  In k' (run (Among xs) k) ->
  exists c, rest k = c :: rest k' /\ among xs c = true.
Proof.
  simpl. unfold advance. destruct (rest k) as [|c t]; [intros [] |].
  destruct (among xs c) eqn:Hc; [| intros []].
  intros [<- | []]. now exists c.
Qed.

Lemma in_seq_inv r1 r2 k k2 :
  In k2 (run (Seq r1 r2) k) -> exists k1, In k1 (run r1 k) /\ In k2 (run r2 k1).
Proof. rewrite run_seq, in_flat_map. intros (k1 & H1 & H2). now exists k1. Qed.

Lemma in_alt_inv r1 r2 k k' :
  In k' (run (Alt r1 r2) k) -> In k' (run r1 k) \/ In k' (run r2 k).
Proof. simpl. apply in_app_or. Qed.

Lemma in_pair xs ys k k' :
  In k' (run (Seq (Among xs) (Among ys)) k) ->
  exists a b, rest k = a :: b :: rest k' /\ among xs a = true /\ among ys b = true.
Proof.
  intros H. apply in_seq_inv in H as (k1 & H1 & H2).
  apply in_among in H1 as (a & Ha & Hxa). apply in_among in H2 as (b & Hb & Hyb).
  exists a, b. now rewrite Ha, Hb.
Qed.

Lemma in_four r k k' :
  In k' (run (Times 4 r) k) ->
  exists k1 k2 k3,
    In k1 (run r k) /\ In k2 (run r k1) /\ In k3 (run r k2) /\ In k' (run r k3).
Proof.
  simpl. rewrite in_flat_map. intros (k1 & H1 & H).
  rewrite in_flat_map in H. destruct H as (k2 & H2 & H).
  rewrite in_flat_map in H. destruct H as (k3 & H3 & H).
  rewrite in_flat_map in H. destruct H as (k4 & H4 & [<- | []]).
  now exists k1, k2, k3.
Qed.

Lemma month_matches k k' :
  In k' (run (Alt (Seq (Chr "0") (Among [Span (chr "1") (chr "9")]))
                  (Seq (Chr "1") (Among [Span (chr "0") (chr "2")]))) k) ->
  exists a b, rest k = a :: b :: rest k' /\ month_shape a b = true.
Proof.
  intros H. unfold month_shape.
  apply in_alt_inv in H as [H | H]; apply in_pair in H as (a & b & Hk & Ha & Hb);
    exists a, b; (split; [exact Hk |]);
    rewrite among_one in Ha; rewrite among_span in Hb.
  - change (chr "0") with 48 in Ha. change (chr "1") with 49 in Hb.
    change (chr "9") with 57 in Hb. rewrite <- andb_assoc, Ha, Hb. reflexivity.
  - change (chr "1") with 49 in Ha. change (chr "0") with 48 in Hb.
    change (chr "2") with 50 in Hb. rewrite <- (andb_assoc (a =? 49)), Ha, Hb.
    apply orb_true_r.
Qed.

Lemma day_matches k k' :
  In k' (run (Alt (Seq (Chr "0") (Among [Span (chr "1") (chr "9")]))
             (Alt (Seq (Among [One (chr "1"); One (chr "2")]) Dig)
                  (Seq (Chr "3") (Among [One (chr "0"); One (chr "1")])))) k) ->
  exists a b, rest k = a :: b :: rest k' /\ day_shape a b = true.
Proof.
  intros H. unfold day_shape.
  apply in_alt_inv in H as [H | H]; [| apply in_alt_inv in H as [H | H]];
    apply in_pair in H as (a & b & Hk & Ha & Hb);
    exists a, b; (split; [exact Hk |]).
  - rewrite among_one in Ha. rewrite among_span in Hb.
    change (chr "0") with 48 in Ha. change (chr "1") with 49 in Hb.
    change (chr "9") with 57 in Hb. rewrite <- andb_assoc, Ha, Hb. reflexivity.
  - rewrite among_two in Ha. rewrite among_decimal in Hb.
    change (chr "1") with 49 in Ha. change (chr "2") with 50 in Ha.
    rewrite Ha, Hb. simpl. now rewrite orb_true_r.
  - rewrite among_one in Ha. rewrite among_two in Hb.
    change (chr "3") with 51 in Ha. change (chr "0") with 48 in Hb.
    change (chr "1") with 49 in Hb. rewrite Ha, Hb. simpl. apply orb_true_r.
Qed.

Lemma date_matches_shape s :
  matches DATE_PATTERN s = true -> date_shape s = true.
Proof.
  intros H. apply matches_nonempty in H as [k H]. unfold DATE_PATTERN in H.
  apply in_seq_inv in H as (k4 & Hyear & H).
  apply in_four in Hyear as (k1 & k2 & k3 & H1 & H2 & H3 & H4).
  apply in_among in H1 as (y1 & Hk1 & Hy1). apply in_among in H2 as (y2 & Hk2 & Hy2).
  apply in_among in H3 as (y3 & Hk3 & Hy3). apply in_among in H4 as (y4 & Hk4 & Hy4).
  apply in_seq_inv in H as (k5 & Hh1 & H). apply in_among in Hh1 as (h1 & Hk5 & Hh1).
  apply in_seq_inv in H as (k7 & Hm & H).
  apply month_matches in Hm as (m1 & m2 & Hk7 & Hm).
  apply in_seq_inv in H as (k8 & Hh2 & H). apply in_among in Hh2 as (h2 & Hk8 & Hh2).
  apply day_matches in H as (d1 & d2 & Hk10 & Hd).
  simpl in Hk1. rewrite Hk2, Hk3, Hk4, Hk5, Hk7, Hk8, Hk10 in Hk1. subst s.
  rewrite among_decimal in Hy1, Hy2, Hy3, Hy4. rewrite among_one in Hh1, Hh2.
  change (chr "-") with 45 in Hh1, Hh2.
  simpl. now rewrite Hy1, Hy2, Hy3, Hy4, Hh1, Hm, Hh2, Hd.
Qed.

Lemma in_pair_intro xs ys p a b t :
  among xs a = true -> among ys b = true ->
  In (Cursor (S (S p)) t) (run (Seq (Among xs) (Among ys)) (Cursor p (a :: b :: t))).
Proof.
  intros Ha Hb. rewrite run_seq. simpl. unfold advance. simpl.
  rewrite Ha. simpl. rewrite Hb. now left.
Qed.

Lemma month_shape_matches p a b t :
  month_shape a b = true ->
  In (Cursor (S (S p)) t)
     (run (Alt (Seq (Chr "0") (Among [Span (chr "1") (chr "9")]))
               (Seq (Chr "1") (Among [Span (chr "0") (chr "2")])))
          (Cursor p (a :: b :: t))).
Proof.
  unfold month_shape. intros H. apply orb_true_iff in H as [H | H];
    rewrite <- andb_assoc in H; apply andb_true_iff in H as [Ha Hb];
    cbn [run]; apply in_or_app; [left | right];
    apply in_pair_intro; rewrite ?among_one, ?among_span; assumption.
Qed.

Lemma day_shape_matches p a b t :
  day_shape a b = true ->
  In (Cursor (S (S p)) t)
     (run (Alt (Seq (Chr "0") (Among [Span (chr "1") (chr "9")]))
          (Alt (Seq (Among [One (chr "1"); One (chr "2")]) Dig)
               (Seq (Chr "3") (Among [One (chr "0"); One (chr "1")]))))
          (Cursor p (a :: b :: t))).
Proof.
  unfold day_shape. intros H.
  apply orb_true_iff in H as [H | H]; [apply orb_true_iff in H as [H | H] |].
  - rewrite <- andb_assoc in H. apply andb_true_iff in H as [Ha Hb].
    cbn [run]. apply in_or_app. left.
    apply in_pair_intro; rewrite ?among_one, ?among_span; assumption.
  - apply andb_true_iff in H as [Ha Hb].
    cbn [run]. apply in_or_app. right. apply in_or_app. left.
    apply (in_pair_intro [One (chr "1"); One (chr "2")] [Decimal]);
      rewrite ?among_two, ?among_decimal; assumption.
  - apply andb_true_iff in H as [Ha Hb].
    cbn [run]. apply in_or_app. right. apply in_or_app. right.
    apply in_pair_intro; rewrite ?among_one, ?among_two; assumption.
Qed.

Lemma date_shape_matches s :
  date_shape s = true -> matches DATE_PATTERN s = true.
Proof.
  intros H. apply matches_nonempty.
  destruct s as [|y1 [|y2 [|y3 [|y4 [|h1 [|m1 [|m2 [|h2 [|d1 [|d2 t]]]]]]]]]];
    try discriminate H.
  simpl in H. rewrite !andb_true_iff in H.
  destruct H as [[[[[[[Hy1 Hy2] Hy3] Hy4] Hh1] Hm] Hh2] Hd].
  exists (Cursor 10 t). unfold DATE_PATTERN.
  eapply in_seq; [now apply in_four_digits |].
  eapply in_seq; [now apply in_hyphen |].
  eapply in_seq; [now apply month_shape_matches |].
  eapply in_seq; [now apply in_hyphen |].
  now apply day_shape_matches.
Qed.
End Dates.

(** X13. The date check accepts a string exactly when its first ten
    characters have the shape of the pattern: four decimal digits, a
    hyphen, a month 01 to 12, a hyphen, a day 01 to 31.  The digits of the
    year and the second digit of the days 10 to 29 may be any decimal
    digits of Unicode; the others are ASCII. *)
Theorem date_validator_shape (U : Unicode) (s : text) :
  matches DATE_PATTERN s = true <-> date_shape s = true.
Proof. split; [apply date_matches_shape | apply date_shape_matches]. Qed.

(** ** The amount entered *)

Section Amounts.
Context {U : Unicode}.
Hypothesis table : coherent U.

Lemma decimal_ascii c :
  (c <? 128) = true -> is_decimal c = true -> ascii_digit c = true.
Proof.
  unfold is_decimal, to_decimal, ascii_digit. intros ->.
  now destruct ((48 <=? c) && (c <=? 57)).
Qed.

Lemma ascii_digit_small c : ascii_digit c = true -> (c <? 127) = true.
Proof.
  unfold ascii_digit. rewrite andb_true_iff, !N.leb_le, N.ltb_lt. lia.
Qed.

(** A decimal digit becomes an ASCII digit. *)
Lemma transform_decimal c t :
  is_decimal c = true ->
  exists c', ascii_digit c' = true /\ transform (c :: t) = c' :: transform t.
Proof.
  intros Hc. cbn [transform]. destruct (c <? 127) eqn:H127.
  - exists c. split; [| reflexivity]. apply decimal_ascii; [| exact Hc].
    apply N.ltb_lt in H127. apply N.ltb_lt. lia.
  - apply N.ltb_ge in H127. unfold is_decimal, to_decimal in Hc.
    destruct (c <? 128) eqn:H128.
    + apply N.ltb_lt in H128. assert (c = 127) by lia. subst c. discriminate.
    + apply N.ltb_ge in H128. apply N.leb_le in H128 as H128'. rewrite H128'.
      destruct (uni_decimal c) as [d|] eqn:Hd; [| discriminate].
      destruct (table c d Hd) as [Hlt ->]. simpl.
      exists (48 + d). split; [| reflexivity].
      unfold ascii_digit. rewrite andb_true_iff, !N.leb_le. lia.
Qed.

Lemma transform_digits ds : forall tl,
  forallb is_decimal ds = true -> tl = [] \/ tl = [LF] ->
  exists ds', length ds' = length ds /\ forallb ascii_digit ds' = true
              /\ transform (ds ++ tl) = ds' ++ tl.
Proof.
  induction ds as [|c ds IH]; intros tl Hds Htl.
  - exists []. repeat split. now destruct Htl as [-> | ->].
  - simpl in Hds. apply andb_true_iff in Hds as [Hc Hds].
    destruct (IH tl Hds Htl) as (ds' & Hlen & Hall & Htr).
    destruct (transform_decimal c (ds ++ tl) Hc) as (c' & Hc' & Hstep).
    exists (c' :: ds'). simpl. rewrite Hlen, Hc', Hall.
    repeat split. rewrite <- Htr. exact Hstep.
Qed.

Lemma to_ascii_digits ds tl :
  forallb is_decimal ds = true -> tl = [] \/ tl = [LF] ->
  exists ds', length ds' = length ds /\ forallb ascii_digit ds' = true
              /\ to_ascii (ds ++ tl) = ds' ++ tl.
Proof.
  intros Hds Htl. unfold to_ascii.
  destruct (forallb (fun c => c <? 128) (ds ++ tl)) eqn:Hascii;
    [| now apply transform_digits].
  exists ds. repeat split. rewrite forallb_app in Hascii.
  apply andb_true_iff in Hascii as [Hascii _].
  rewrite forallb_forall in *. intros c Hc. apply decimal_ascii; auto.
Qed.

Lemma digit_not_space c : ascii_digit c = true -> ascii_space c = false.
Proof.
  intros H. assert (Hp : plain c = true) by (unfold plain; now rewrite H).
  now apply plain_facts in Hp.
Qed.

Lemma strip_digits ds tl :
  ds <> [] -> forallb ascii_digit ds = true -> tl = [] \/ tl = [LF] ->
  strip (ds ++ tl) = ds.
Proof.
  intros Hne Hds Htl. unfold strip.
  assert (Hhead : drop_while ascii_space (ds ++ tl) = ds ++ tl).
  { destruct ds as [|c ds]; [congruence |]. simpl in *.
    apply andb_true_iff in Hds as [Hc _]. now rewrite (digit_not_space c Hc). }
  rewrite Hhead, rev_app_distr.
  assert (Hrev : drop_while ascii_space (rev ds) = rev ds).
  { apply drop_while_plain, digits_plain. rewrite forallb_forall in *.
    intros c Hc. apply Hds. now apply in_rev. }
  destruct Htl as [-> | ->]; simpl; rewrite Hrev; apply rev_involutive.
Qed.

(** What the amount check accepts, [int] reads, as a number that is not
    negative. *)
Lemma amount_text_number s :
  matches AMOUNT_PATTERN s = true ->
  exists n, int_of_text s = Ok n /\ (0 <= n)%Z.
Proof.
  intros H. apply amount_pattern_spec in H.
  assert (Hs : exists ds tl, s = ds ++ tl /\ digits_only ds = true
                             /\ (tl = [] \/ tl = [LF])).
  { destruct H as [H | (ds & -> & H)].
    - exists s, []. rewrite app_nil_r. auto.
    - exists ds, [LF]. auto. }
  destruct Hs as (ds & tl & -> & Hds & Htl).
  assert (Hne : ds <> []) by (destruct ds; [discriminate | congruence]).
  assert (Hall : forallb is_decimal ds = true) by (destruct ds; [congruence | exact Hds]).
  destruct (to_ascii_digits ds tl Hall Htl) as (ds' & Hlen & Hall' & Hascii).
  assert (Hne' : ds' <> []) by (destruct ds', ds; simpl in *; congruence).
  exists (Z.of_N (digits_value ds')). split; [| lia].
  unfold int_of_text, numeric_text.
  rewrite Hascii, (strip_digits ds' tl Hne' Hall' Htl).
  destruct ds' as [|c ds']; [congruence |].
  rewrite drop_underscores_plain by (auto using digits_plain).
  now rewrite split_sign_digits, span_digits.
Qed.
End Amounts.

(** ** The console *)

Section Runs.
Import Console.

Lemma ends_ret {A} (a : A) w Q : Q (Ok a) w -> ends (mret a) w Q.
Proof. intros H. now exists (Ok a), w. Qed.

Lemma ends_bind {A B} (m : IO A) (f : A -> IO B) w Q :
  ends m w (fun r w' =>
              match r with
              | Ok a => ends (f a) w' Q
              | Raise e => Q (Raise e) w'
              end) ->
  ends (m ≫= f) w Q.
Proof.
  intros (r & w' & Hm & H). unfold ends, mbind, IO_bind. rewrite Hm.
  destruct r as [a|e]; [exact H |]. now exists (Raise e), w'.
Qed.

Lemma ends_weaken {A} (m : IO A) w (Q Q' : result A -> world -> Prop) :
  ends m w Q -> (forall r w', Q r w' -> Q' r w') -> ends m w Q'.
Proof. intros (r & w' & Hm & H) HQ. exists r, w'. auto. Qed.

Lemma ends_of_result {A} (r : result A) w Q : Q r w -> ends (of_result r) w Q.
Proof. intros H. now exists r, w. Qed.

Lemma ends_print l w Q :
  Q (Ok tt) (World (file w) (stdin w) (stdout w ++ [Print l])) ->
  ends (print l) w Q.
Proof. intros H. eexists _, _. split; [reflexivity | exact H]. Qed.

Lemma ends_say s w Q :
  Q (Ok tt) (World (file w) (stdin w) (stdout w ++ [Print [Lit (utf8 s)]])) ->
  ends (say s) w Q.
Proof. apply ends_print. Qed.

Lemma ends_input prompt w Q :
  match stdin w with
  | line :: rest => Q (Ok line) (World (file w) rest (stdout w ++ [Prompt prompt]))
  | [] => Q (Raise EOFError) (World (file w) [] (stdout w ++ [Prompt prompt]))
  end ->
  ends (input prompt) w Q.
Proof.
  intros H. unfold ends, input. destruct (stdin w); eexists _, _; eauto.
Qed.

Lemma ends_on_file {A} (m : M A) w Q :
  Q (fst (m (file w))) (World (snd (m (file w))) (stdin w) (stdout w)) ->
  ends (on_file m) w Q.
Proof.
  intros H. unfold ends, on_file. destruct (m (file w)) as [r st].
  eexists _, _. eauto.
Qed.

(** A loop whose body, where it goes round again, has read a line: it
    ends within the rounds it is given, and an invariant of the rounds
    holds throughout. *)
Lemma ends_while {A} (body : IO (option A)) (I : world -> Prop) Q :
  (forall w, I w ->
     ends body w (fun r w' =>
       match r with
       | Ok (Some a) => Q (Ok a) w'
       | Ok None => I w' /\ (length (stdin w') < length (stdin w))%nat
       | Raise e => Q (Raise e) w'
       end)) ->
  forall rounds w, (length (stdin w) < rounds)%nat -> I w ->
  ends (while rounds body) w Q.
Proof.
  intros Hbody. induction rounds as [|rounds IH]; intros w Hrounds Hw; [lia |].
  destruct (Hbody w Hw) as (r & w' & Hrun & Hpost).
  cbn [while]. unfold ends, mbind, IO_bind. rewrite Hrun.
  destruct r as [[a|]|e].
  - now exists (Ok a), w'.
  - destruct Hpost as [Hw' Hlt]. apply IH; [lia | exact Hw'].
  - now exists (Raise e), w'.
Qed.

Lemma ends_loop {A} (body : IO (option A)) (I : world -> Prop) w Q :
  (forall w, I w ->
     ends body w (fun r w' =>
       match r with
       | Ok (Some a) => Q (Ok a) w'
       | Ok None => I w' /\ (length (stdin w') < length (stdin w))%nat
       | Raise e => Q (Raise e) w'
       end)) ->
  I w -> ends (loop body) w Q.
Proof.
  intros Hbody Hw. unfold loop. apply (ends_while body I Q Hbody); [lia | exact Hw].
Qed.

(** A loop left in its first round. *)
Lemma ends_loop_once {A} (body : IO (option A)) w Q :
  ends body w (fun r w' =>
    match r with
    | Ok (Some a) => Q (Ok a) w'
    | Ok None => False
    | Raise e => Q (Raise e) w'
    end) ->
  ends (loop body) w Q.
Proof.
  intros H. apply (ends_loop body (fun w0 => w0 = w)); [| reflexivity].
  intros w0 ->. apply (ends_weaken _ _ _ _ H).
  intros [[a|]|e] w'; auto. intros [].
Qed.

Lemma ends_for_each {A} (l : list A) (body : A -> IO unit) w Q :
  (forall x w0, In x l ->
     exists out, body x w0 = Some (Ok tt, World (file w0) (stdin w0) (stdout w0 ++ out))) ->
  (forall out, Q (Ok tt) (World (file w) (stdin w) (stdout w ++ out))) ->
  ends (for_each l body) w Q.
Proof.
  intros Hbody. revert w Q. induction l as [|x l IH]; intros w Q HQ.
  - apply ends_ret. specialize (HQ []). rewrite app_nil_r in HQ. now destruct w.
  - cbn [for_each]. apply ends_bind.
    destruct (Hbody x w ltac:(now left)) as (out & Hrun).
    eexists _, _. split; [exact Hrun |].
    apply IH; [intros; apply Hbody; now right |].
    intros out'. simpl. rewrite <- app_assoc. apply HQ.
Qed.
End Runs.

(** ** The prompts *)

Section Prompts.
Local Abbreviation date_lines := check_date_input.
Local Abbreviation amount_lines := check_amount_input.
Import Console.
Context {U : Unicode}.

Lemma int_of_text_raises s e : int_of_text s = Raise e -> e = ValueError.
Proof.
  unfold int_of_text. destruct (numeric_text s) as [t|]; [| now intros [= <-]].
  destruct (split_sign t) as [sign t0].
  destruct (span ascii_digit t0) as [[|c ds] [|c' tl]];
    try discriminate; now intros [= <-].
Qed.

Lemma ends_request num_commands w (Q : result (option Z) -> world -> Prop) :
  match stdin w with
  | line :: rest =>
    forall out, Q (Ok (command_of line num_commands)) (World (file w) rest out)
  | [] => forall out, Q (Raise EOFError) (World (file w) [] out)
  end ->
  ends (request_command_number num_commands) w Q.
Proof.
  intros HQ. unfold request_command_number. apply ends_bind, ends_input.
  destruct (stdin w) as [|line rest]; [apply HQ |].
  unfold command_of in HQ.
  destruct (int_of_text line) as [k|e] eqn:Hk.
  - replace (k <? num_commands + 1)%Z with (k <=? num_commands)%Z
      by (destruct (k <=? num_commands)%Z eqn:H; symmetry;
          [apply Z.ltb_lt; apply Z.leb_le in H | apply Z.ltb_ge; apply Z.leb_gt in H];
          lia).
    destruct ((1 <=? k)%Z && (k <=? num_commands)%Z).
    + apply ends_ret, HQ.
    + unfold print_error_message.
      apply ends_bind, ends_bind, ends_say, ends_bind, ends_say, ends_say, ends_ret, HQ.
  - apply int_of_text_raises in Hk as ->. unfold print_error_message.
    apply ends_bind, ends_bind, ends_say, ends_bind, ends_say, ends_say, ends_ret, HQ.
Qed.

Lemma ends_check_date w (Q : result text -> world -> Prop) :
  (forall out, Q (fst (date_lines (stdin w)))
                 (World (file w) (snd (date_lines (stdin w))) out)) ->
  ends check_date_input w Q.
Proof.
  intros HQ. unfold check_date_input.
  apply (ends_loop _ (fun w0 => file w0 = file w
                                /\ date_lines (stdin w0) = date_lines (stdin w)));
    [| now split].
  intros w0 [Hf Hl]. apply ends_bind, ends_input.
  destruct (stdin w0) as [|line rest] eqn:Hin; cbn [date_lines] in Hl.
  - rewrite Hf. specialize (HQ (stdout w0 ++ [Prompt [Lit (utf8 "Введите дату в формате гггг-мм-дд: ")]])).
    now rewrite <- Hl in HQ.
  - destruct (matches DATE_PATTERN line) eqn:Hm.
    + apply ends_ret. rewrite Hf.
      specialize (HQ (stdout w0 ++ [Prompt [Lit (utf8 "Введите дату в формате гггг-мм-дд: ")]])).
      now rewrite <- Hl in HQ.
    + apply ends_bind, ends_say, ends_ret. simpl. repeat split; auto.
Qed.

Lemma ends_check_amount category w (Q : result Z -> world -> Prop) :
  (forall out, Q (fst (amount_lines (stdin w)))
                 (World (file w) (snd (amount_lines (stdin w))) out)) ->
  ends (check_amount_input category) w Q.
Proof.
  intros HQ. unfold check_amount_input.
  apply (ends_loop _ (fun w0 => file w0 = file w
                                /\ amount_lines (stdin w0) = amount_lines (stdin w)));
    [| now split].
  intros w0 [Hf Hl]. apply ends_bind, ends_input.
  destruct (stdin w0) as [|line rest] eqn:Hin; cbn [amount_lines] in Hl.
  - rewrite Hf. specialize (HQ (stdout w0 ++ [Prompt [Lit category; Lit (utf8 ". Введите сумму (в рублях): ")]])).
    now rewrite <- Hl in HQ.
  - destruct (matches AMOUNT_PATTERN line) eqn:Hm.
    + apply ends_bind, ends_of_result. rewrite Hf.
      specialize (HQ (stdout w0 ++ [Prompt [Lit category; Lit (utf8 ". Введите сумму (в рублях): ")]])).
      rewrite <- Hl in HQ. simpl in HQ.
      destruct (int_of_text line) as [n|e]; [apply ends_ret |]; exact HQ.
    + apply ends_bind, ends_say, ends_ret. simpl. repeat split; auto.
Qed.

(** The lines a prompt loop reads: those it refuses, then the one it takes. *)
Lemma date_lines_spec lines :
  (exists skipped d,
     lines = skipped ++ d :: snd (date_lines lines)
     /\ Forall (fun l => matches DATE_PATTERN l = false) skipped
     /\ matches DATE_PATTERN d = true
     /\ fst (date_lines lines) = Ok d)
  \/ (Forall (fun l => matches DATE_PATTERN l = false) lines
      /\ date_lines lines = (Raise EOFError, [])).
Proof.
  induction lines as [|line lines IH]; [right; now split |].
  cbn [date_lines]. destruct (matches DATE_PATTERN line) eqn:Hm.
  - left. exists [], line. now repeat split.
  - destruct IH as [(skipped & d & Hl & Hs & Hd & Hr) | [Hall Hr]].
    + left. exists (line :: skipped), d. repeat split; auto.
      simpl. now rewrite <- Hl.
    + right. split; [now constructor | exact Hr].
Qed.

Lemma amount_lines_spec lines :
  (exists skipped a,
     lines = skipped ++ a :: snd (amount_lines lines)
     /\ Forall (fun l => matches AMOUNT_PATTERN l = false) skipped
     /\ matches AMOUNT_PATTERN a = true
     /\ fst (amount_lines lines) = int_of_text a)
  \/ (Forall (fun l => matches AMOUNT_PATTERN l = false) lines
      /\ amount_lines lines = (Raise EOFError, [])).
Proof.
  induction lines as [|line lines IH]; [right; now split |].
  cbn [amount_lines]. destruct (matches AMOUNT_PATTERN line) eqn:Hm.
  - left. exists [], line. now repeat split.
  - destruct IH as [(skipped & d & Hl & Hs & Hd & Hr) | [Hall Hr]].
    + left. exists (line :: skipped), d. repeat split; auto.
      simpl. now rewrite <- Hl.
    + right. split; [now constructor | exact Hr].
Qed.
Lemma coherent_arabic_indic : coherent arabic_indic.
Proof.
  intros c d. simpl.
  destruct ((1632 <=? c) && (c <=? 1641)) eqn:Hc; [| discriminate].
  apply andb_true_iff in Hc as [H1 H2]. apply N.leb_le in H1, H2.
  intros [= <-]. split; [lia |]. apply N.eqb_neq. lia.
Qed.

(** X14. [request_command_number] reads one line and leaves the file
    alone.  It returns the number the line reads as when that lies from 1
    to [num_commands]; otherwise it prints the three lines of the error
    message and returns None: no ValueError leaves it.  With no line left
    to read, EOFError does. *)
Theorem command_number_prompt (num_commands : Z) (w : world) :
  let prompt := [Lit (utf8 "Введите номер команды (от 1 до "); Num num_commands;
                 Lit (utf8 "): ")] in
  request_command_number num_commands w
  = Some match stdin w with
         | [] => (Raise EOFError, World (file w) [] (stdout w ++ [Prompt prompt]))
         | line :: rest =>
           (Ok (command_of line num_commands),
            World (file w) rest
              (stdout w ++ Prompt prompt ::
                 match command_of line num_commands with
                 | Some _ => []
                 | None => [Print [Lit (utf8 "---")];
                            Print [Lit (utf8 "Ошибка: Введен некорректный номер команды!")];
                            Print [Lit (utf8 "---")]]
                 end))
         end
  /\ forall line k,
       command_of line num_commands = Some k <->
       int_of_text line = Ok k /\ (1 <= k <= num_commands)%Z.
Proof.
  cbv zeta. split.
  - unfold request_command_number, command_of, input, mbind, IO_bind.
    destruct (stdin w) as [|line rest]; [reflexivity |].
    destruct (int_of_text line) as [k|e] eqn:Hk.
    + replace (k <? num_commands + 1)%Z with (k <=? num_commands)%Z
        by (destruct (k <=? num_commands)%Z eqn:H; symmetry;
            [apply Z.ltb_lt; apply Z.leb_le in H | apply Z.ltb_ge; apply Z.leb_gt in H];
            lia).
      destruct ((1 <=? k)%Z && (k <=? num_commands)%Z); [reflexivity |].
      unfold print_error_message, say, print, mbind, IO_bind, mret, IO_ret. cbn.
      now rewrite <- !app_assoc.
    + apply int_of_text_raises in Hk as ->.
      unfold print_error_message, say, print, mbind, IO_bind, mret, IO_ret. cbn.
      now rewrite <- !app_assoc.
  - intros line k. unfold command_of.
    destruct (int_of_text line) as [k'|e]; [| split; [discriminate | now intros [[=] _]]].
    destruct ((1 <=? k')%Z && (k' <=? num_commands)%Z) eqn:Hr; split.
    + intros [= <-]. apply andb_true_iff in Hr as [H1 H2].
      apply Z.leb_le in H1, H2. auto.
    + now intros [[= <-] _].
    + discriminate.
    + intros [[= <-] [H1 H2]]. apply Z.leb_le in H1, H2.
      now rewrite H1, H2 in Hr.
Qed.

(** X15. The date prompt reads lines until one passes the date check and
    returns that line as it is; the lines before it have failed the check,
    and nothing is written to the file.  When no line passes, EOFError is
    raised once the input is used up. *)
Theorem date_prompt_loop (w : world) :
  exists r w',
    check_date_input w = Some (r, w') /\ file w' = file w
    /\ match r with
       | Ok d =>
         matches DATE_PATTERN d = true
         /\ exists skipped,
              stdin w = skipped ++ d :: stdin w'
              /\ Forall (fun l => matches DATE_PATTERN l = false) skipped
       | Raise e =>
         e = EOFError /\ stdin w' = []
         /\ Forall (fun l => matches DATE_PATTERN l = false) (stdin w)
       end.
Proof.
  apply ends_check_date. intros out. simpl. split; [reflexivity |].
  destruct (date_lines_spec (stdin w)) as [(skipped & d & Hl & Hs & Hd & ->) | [Hall ->]].
  - split; [exact Hd |]. now exists skipped.
  - now repeat split.
Qed.

End Prompts.


(** ** The menu *)

Section Menu.
Local Abbreviation date_lines := check_date_input.
Local Abbreviation amount_lines := check_amount_input.
Import Console.
Context {U : Unicode}.

Lemma ends_print_numbered transactions :
  forall index w (Q : result unit -> world -> Prop),
  (forall out, Q (Ok tt) (World (file w) (stdin w) (stdout w ++ out))) ->
  ends (print_numbered index transactions) w Q.
Proof.
  induction transactions as [|row rows IH]; intros index w Q HQ; cbn [print_numbered].
  - apply ends_ret. specialize (HQ []). rewrite app_nil_r in HQ. now destruct w.
  - apply ends_bind, ends_print, IH. intros out. simpl. rewrite <- app_assoc. apply HQ.
Qed.

Lemma command_of_intro line num k :
  int_of_text line = Ok k -> (1 <= k <= num)%Z -> command_of line num = Some k.
Proof.
  intros Hk [H1 H2]. unfold command_of. rewrite Hk.
  apply Z.leb_le in H1, H2. now rewrite H1, H2.
Qed.

(** The edit command on answers that are all accepted at once. *)
Lemma edit_command_run st rows number answer d a descr rest out k n :
  fst (load_transactions st) = Ok rows ->
  check_transaction_number_input number (Z.of_nat (length rows)) = true ->
  int_of_text answer = Ok k -> k = 1%Z \/ k = 2%Z ->
  matches DATE_PATTERN d = true ->
  matches AMOUNT_PATTERN a = true -> int_of_text a = Ok n ->
  let new := [Str d; Str (if (k =? 1)%Z then EXPENSE else INCOME); Int n; Str descr] in
  exists w',
    edit_command (World st (number :: answer :: d :: a :: descr :: rest) out)
    = Some (fst (edit_transaction k new st), w')
    /\ file w' = snd (edit_transaction k new st) /\ stdin w' = rest.
Proof.
  intros Hload Hnumber Hanswer Hk Hd Ha Hn new.
  enough (H : ends edit_command
                (World st (number :: answer :: d :: a :: descr :: rest) out)
                (fun r w' => r = fst (edit_transaction k new st)
                             /\ file w' = snd (edit_transaction k new st)
                             /\ stdin w' = rest)).
  { destruct H as (r & w' & Hrun & -> & Hf & Hs). now exists w'. }
  unfold edit_command.
  apply ends_bind, ends_on_file. cbn [file stdin stdout]. rewrite Hload, load_state.
  apply ends_bind, ends_say, ends_bind, ends_print_numbered. intros out1.
  cbn [file stdin stdout].
  apply ends_bind, ends_loop_once, ends_bind, ends_input. cbn [file stdin stdout].
  rewrite Hnumber. apply ends_ret.
  apply ends_bind, ends_loop_once, ends_bind, ends_say, ends_bind, ends_say,
    ends_bind, ends_request.
  cbn [file stdin stdout]. intros out2.
  rewrite (command_of_intro answer 2 k Hanswer) by lia.
  assert (Hbranch :
    (if (k =? 1)%Z then mret (Some (k, EXPENSE))
     else if (k =? 2)%Z then mret (Some (k, INCOME)) else mret None)
    = (mret (Some (k, if (k =? 1)%Z then EXPENSE else INCOME)) : IO _))
    by (destruct Hk as [-> | ->]; reflexivity).
  rewrite Hbranch. apply ends_ret. cbv beta iota.
  apply ends_bind, ends_check_date. cbn [date_lines file stdin stdout].
  rewrite Hd. cbn [fst snd]. intros out3.
  apply ends_bind, ends_check_amount. cbn [amount_lines file stdin stdout].
  rewrite Ha, Hn. cbn [fst snd]. intros out4.
  apply ends_bind, ends_input. cbn [file stdin stdout].
  apply ends_bind, ends_on_file. cbn [file stdin stdout]. fold new.
  destruct (edit_transaction k new st) as [[[]|e] st']; cbn [fst snd].
  - apply ends_bind, ends_say, ends_bind, ends_say, ends_say. now repeat split.
  - now repeat split.
Qed.

(** X17. In the edit command the position handed to [edit_transaction]
    is the answer to the question about the new category, 1 for an Expense
    and 2 for an Income, and not the record number asked for and checked
    before: whichever accepted number is typed, the command does what
    [edit_transaction] does at position 1 or 2. *)
Theorem menu_edit_position (st : store) (rows : list (list value))
    (number answer d a descr : text) (rest : list text) (out : list event)
    (k n : Z) :
  fst (load_transactions st) = Ok rows ->
  check_transaction_number_input number (Z.of_nat (length rows)) = true ->
  int_of_text answer = Ok k -> k = 1%Z \/ k = 2%Z ->
  matches DATE_PATTERN d = true ->
  matches AMOUNT_PATTERN a = true -> int_of_text a = Ok n ->
  let new := [Str d; Str (if (k =? 1)%Z then EXPENSE else INCOME); Int n; Str descr] in
  exists w',
    edit_command (World st (number :: answer :: d :: a :: descr :: rest) out)
    = Some (fst (edit_transaction k new st), w')
    /\ file w' = snd (edit_transaction k new st) /\ stdin w' = rest.
Proof. apply edit_command_run. Qed.

(** X18. With one record in the store, turning it into an Income record
    by the edit command raises IndexError, whatever else is typed, and the
    file stays as it was. *)
Theorem menu_edit_single_record (st : store) (row : list value)
    (number answer d a descr : text) (rest : list text) (out : list event)
    (n : Z) :
  fst (load_transactions st) = Ok [row] ->
  check_transaction_number_input number 1 = true ->
  int_of_text answer = Ok 2%Z ->
  matches DATE_PATTERN d = true ->
  matches AMOUNT_PATTERN a = true -> int_of_text a = Ok n ->
  exists w',
    edit_command (World st (number :: answer :: d :: a :: descr :: rest) out)
    = Some (Raise IndexError, w')
    /\ file w' = st /\ stdin w' = rest.
Proof.
  intros Hload Hnumber Hanswer Hd Ha Hn.
  destruct (edit_command_run st [row] number answer d a descr rest out 2%Z n
              Hload Hnumber Hanswer ltac:(now right) Hd Ha Hn)
    as (w' & Hrun & Hf & Hs).
  rewrite (edit_loaded st _ _ _ Hload), setitem_out_of_range in Hrun, Hf
    by (simpl; lia).
  now exists w'.
Qed.

(** X19. On a file without a record the edit command cannot be carried
    out: every record number typed is refused, the command asks again
    until the input is used up and EOFError is raised, and the file stays
    as it was. *)
Theorem menu_edit_empty_store (w : world) :
  fst (load_transactions (file w)) = Ok [] ->
  exists w',
    edit_command w = Some (Raise EOFError, w')
    /\ file w' = file w /\ stdin w' = [].
Proof.
  intros Hload.
  enough (H : ends edit_command w
                (fun r w' => r = Raise EOFError /\ file w' = file w /\ stdin w' = [])).
  { destruct H as (r & w' & Hrun & -> & Hf & Hs). now exists w'. }
  unfold edit_command.
  apply ends_bind, ends_on_file. rewrite Hload, load_state.
  apply ends_bind, ends_say, ends_bind, ends_ret, ends_bind.
  apply (ends_loop _ (fun w0 => file w0 = file w)); [| reflexivity].
  intros w0 Hf. apply ends_bind, ends_input.
  destruct (stdin w0) as [|line lines] eqn:Hin; [now repeat split |].
  assert (Hno : check_transaction_number_input line (Z.of_nat (length (@nil (list value)))) = false).
  { simpl. unfold check_transaction_number_input.
    destruct (int_of_text line) as [p|]; [| reflexivity].
    apply andb_false_iff. destruct (1 <=? p)%Z eqn:H1; [right | now left].
    apply Z.leb_gt. apply Z.leb_le in H1. lia. }
  rewrite Hno. apply ends_bind, ends_print, ends_ret. simpl.
  split; [exact Hf | lia].
Qed.

(** The add command on answers that are all accepted at once. *)
Lemma add_command_run st answer a descr d rest out k n :
  int_of_text answer = Ok k -> k = 1%Z \/ k = 2%Z ->
  matches AMOUNT_PATTERN a = true -> int_of_text a = Ok n ->
  matches DATE_PATTERN d = true ->
  exists w',
    add_command (World st (answer :: a :: descr :: d :: rest) out) = Some (Ok tt, w')
    /\ file w'
       = snd (add_transaction
                {| date := d; category := if (k =? 1)%Z then EXPENSE else INCOME;
                   amount := n; description := str_strip descr |} st)
    /\ stdin w' = rest.
Proof.
  intros Hanswer Hk Ha Hn Hd.
  enough (H : ends add_command (World st (answer :: a :: descr :: d :: rest) out)
                (fun r w' =>
                   r = Ok tt
                   /\ file w'
                      = snd (add_transaction
                               {| date := d;
                                  category := if (k =? 1)%Z then EXPENSE else INCOME;
                                  amount := n; description := str_strip descr |} st)
                   /\ stdin w' = rest)).
  { destruct H as (r & w' & Hrun & -> & Hf & Hs). now exists w'. }
  unfold add_command.
  apply ends_bind, ends_loop_once, ends_bind, ends_say, ends_bind, ends_say,
    ends_bind, ends_request.
  cbn [file stdin stdout]. intros out1.
  rewrite (command_of_intro answer 2 k Hanswer) by lia.
  assert (Hbranch :
    (if chosen (Some k) 1 then mret (Some EXPENSE)
     else if chosen (Some k) 2 then mret (Some INCOME) else mret None)
    = (mret (Some (if (k =? 1)%Z then EXPENSE else INCOME)) : IO _))
    by (destruct Hk as [-> | ->]; reflexivity).
  rewrite Hbranch. apply ends_ret.
  apply ends_bind, ends_check_amount. cbn [amount_lines file stdin stdout].
  rewrite Ha, Hn. cbn [fst snd]. intros out2.
  apply ends_bind, ends_input. cbn [file stdin stdout]. cbv zeta.
  apply ends_bind, ends_check_date. cbn [date_lines file stdin stdout].
  rewrite Hd. cbn [fst snd]. intros out3.
  apply ends_bind, ends_on_file. cbn [file stdin stdout fst snd].
  apply ends_bind, ends_say, ends_bind, ends_say, ends_say. now repeat split.
Qed.

Lemma records_after_add st t :
  written st ->
  fst (load_transactions (snd (add_transaction t st)))
  = Ok (records_of st ++ [as_text (row_of t)]).
Proof.
  intros Hw. unfold records_of.
  destruct (written_rows st Hw) as [-> | [rs ->]].
  - change (snd (add_transaction t None)) with (Some (writerow (row_of t))).
    rewrite <- (app_nil_r (writerow (row_of t))).
    change (writerow (row_of t) ++ []) with (writerows [row_of t]).
    now rewrite load_written.
  - change (snd (add_transaction t (Some (writerows rs))))
      with (Some (writerows rs ++ writerow (row_of t))).
    replace (writerows rs ++ writerow (row_of t)) with (writerows (rs ++ [row_of t]))
      by (unfold writerows; rewrite flat_map_app; simpl; now rewrite app_nil_r).
    rewrite !load_written. simpl fst. now rewrite map_app.
Qed.

End Menu.

(** On the store of two records: the record number typed is 1, the new
    category is Income, and it is the second record that is replaced. *)
Lemma menu_edit_position_witness :
  exists w',
    @Console.edit_command ascii_table
      (Console.World two_records
         [utf8 "1"; utf8 "2"; utf8 "2024-05-03"; utf8 "700"; utf8 "rent"] [])
    = Some (Ok tt, w')
    /\ fst (load_transactions (Console.file w'))
       = Ok [as_text (row_of salary);
             [Str (utf8 "2024-05-03"); Str INCOME; Str (utf8 "700"); Str (utf8 "rent")]]
    /\ Console.stdin w' = [].
Proof.
  destruct (@menu_edit_position ascii_table two_records
              [as_text (row_of salary); as_text (row_of food)]
              (utf8 "1") (utf8 "2") (utf8 "2024-05-03") (utf8 "700") (utf8 "rent")
              [] [] 2%Z 700%Z)
    as (w' & Hrun & Hf & Hs); try reflexivity; [now right |].
  exists w'. split; [exact Hrun |]. split; [| exact Hs].
  rewrite Hf. reflexivity.
Defined.

(** The store of the one record [salary], the record number 1, and the
    new category Income. *)
Lemma menu_edit_single_record_witness :
  exists w',
    @Console.edit_command ascii_table
      (Console.World (snd (add_transaction salary None))
         [utf8 "1"; utf8 "2"; utf8 "2024-05-03"; utf8 "700"; utf8 "rent"] [])
    = Some (Raise IndexError, w')
    /\ Console.file w' = snd (add_transaction salary None)
    /\ Console.stdin w' = [].
Proof.
  apply (@menu_edit_single_record ascii_table (snd (add_transaction salary None))
           (as_text (row_of salary))
           (utf8 "1") (utf8 "2") (utf8 "2024-05-03") (utf8 "700") (utf8 "rent")
           [] [] 700%Z); reflexivity.
Defined.

(** An empty file, and three attempts at a record number. *)
Lemma menu_edit_empty_store_witness :
  exists w',
    @Console.edit_command ascii_table
      (Console.World (Some []) [utf8 "1"; utf8 "0"; utf8 "2"] [])
    = Some (Raise EOFError, w')
    /\ Console.file w' = Some [] /\ Console.stdin w' = [].
Proof.
  apply (@menu_edit_empty_store ascii_table
           (Console.World (Some []) [utf8 "1"; utf8 "0"; utf8 "2"] [])).
  reflexivity.
Defined.


(** ** The script as a whole *)

Section Sound.
Local Abbreviation date_lines := check_date_input.
Local Abbreviation amount_lines := check_amount_input.
Import Console.
Context {U : Unicode}.
Variable Inv : store -> Prop.
Variable E : exn -> Prop.
Variable Good : Z -> Prop.

Lemma sound_ret {A} (P : A -> Prop) a : P a -> sound Inv E false P (mret a).
Proof. intros Ha w Hw. apply ends_ret. repeat split; auto. discriminate. Qed.

Lemma sound_weaken {A} (P P' : A -> Prop) s (m : IO A) :
  sound Inv E s P m -> (forall a, P a -> P' a) -> sound Inv E false P' m.
Proof.
  intros Hm HP w Hw. apply (ends_weaken _ _ _ _ (Hm w Hw)).
  intros [a|e] w' (Hi & Hl & H); repeat split; auto; [apply HP, H | discriminate].
Qed.

Lemma sound_strict {A} (P P' : A -> Prop) (m : IO A) :
  sound Inv E true P m -> (forall a, P a -> P' a) -> sound Inv E true P' m.
Proof.
  intros Hm HP w Hw. apply (ends_weaken _ _ _ _ (Hm w Hw)).
  intros [a|e] w' (Hi & Hl & H); repeat split; auto; [apply HP, H | apply H].
Qed.

Lemma sound_bind {A B} (P : A -> Prop) (Q : B -> Prop) s1 s2 (m : IO A) (f : A -> IO B) :
  sound Inv E s1 P m -> (forall a, P a -> sound Inv E s2 Q (f a)) ->
  sound Inv E (s1 || s2) Q (m ≫= f).
Proof.
  intros Hm Hf w Hw. apply ends_bind. apply (ends_weaken _ _ _ _ (Hm w Hw)).
  intros [a|e] w1 (Hi & Hl & H); [| repeat split; auto].
  destruct H as [Ha Hs1]. apply (ends_weaken _ _ _ _ (Hf a Ha w1 Hi)).
  intros [b|e] w2 (Hi2 & Hl2 & H2); repeat split; auto; try lia; [apply H2 |].
  intros Hs. apply orb_true_iff in Hs as [Hs | Hs]; [specialize (Hs1 Hs) | apply H2 in Hs]; lia.
Qed.

Lemma sound_print l : sound Inv E false (fun _ => True) (print l).
Proof. intros w Hw. apply ends_print. simpl. repeat split; auto. discriminate. Qed.

Lemma sound_say s : sound Inv E false (fun _ => True) (say s).
Proof. apply sound_print. Qed.

Hypothesis eof : E EOFError.

Lemma sound_input prompt : sound Inv E true (fun _ => True) (input prompt).
Proof.
  intros w Hw. apply ends_input. destruct (stdin w) as [|line rest]; simpl; repeat split; auto.
Qed.

Lemma command_of_range line num k :
  command_of line num = Some k -> (1 <= k <= num)%Z.
Proof.
  unfold command_of. destruct (int_of_text line) as [k'|]; [| discriminate].
  destruct ((1 <=? k')%Z && (k' <=? num)%Z) eqn:Hr; [| discriminate].
  intros [= <-]. apply andb_true_iff in Hr as [H1 H2]. apply Z.leb_le in H1, H2. lia.
Qed.

Lemma sound_request num :
  sound Inv E true (fun c => forall k, c = Some k -> (1 <= k <= num)%Z)
    (request_command_number num).
Proof.
  intros w Hw. apply ends_request.
  destruct (stdin w) as [|line rest]; intros out; simpl.
  - repeat split; auto.
  - split; [exact Hw |]. split; [lia |]. split; [apply command_of_range | lia].
Qed.

Lemma sound_loop {A} (P : A -> Prop) (body : IO (option A)) :
  sound Inv E true (fun r => match r with Some a => P a | None => True end) body ->
  sound Inv E true P (loop body).
Proof.
  intros Hbody w Hw.
  apply (ends_loop body (fun w0 => Inv (file w0) /\ (length (stdin w0) <= length (stdin w))%nat));
    [| split; [exact Hw | lia]].
  intros w0 [Hw0 Hl0]. apply (ends_weaken _ _ _ _ (Hbody w0 Hw0)).
  intros [[a|]|e] w' (Hi & Hl & H).
  - destruct H as [Ha Hs]. specialize (Hs eq_refl). repeat split; auto; lia.
  - destruct H as [_ Hs]. specialize (Hs eq_refl). repeat split; auto; lia.
  - repeat split; auto. lia.
Qed.

Lemma sound_relax {A} (P : A -> Prop) (m : IO A) :
  sound Inv E true P m -> sound Inv E false P m.
Proof. intros H. apply (sound_weaken P P true m H). auto. Qed.

Lemma sound_first {A B} (P : A -> Prop) (Q : B -> Prop) s (m : IO A) (f : A -> IO B) :
  sound Inv E true P m -> (forall a, P a -> sound Inv E s Q (f a)) ->
  sound Inv E true Q (m ≫= f).
Proof. intros Hm Hf. apply (sound_bind P Q true s m f Hm Hf). Qed.

Lemma sound_then {A B} (P : A -> Prop) (Q : B -> Prop) s (m : IO A) (f : A -> IO B) :
  sound Inv E false P m -> (forall a, P a -> sound Inv E s Q (f a)) ->
  sound Inv E s Q (m ≫= f).
Proof. intros Hm Hf. apply (sound_bind P Q false s m f Hm Hf). Qed.

Lemma sound_on_file {A} (P : A -> Prop) (m : M A) :
  (forall st, Inv st ->
     Inv (snd (m st)) /\ match fst (m st) with Ok a => P a | Raise e => E e end) ->
  sound Inv E false P (on_file m).
Proof.
  intros Hm w Hw. apply ends_on_file. simpl.
  destruct (Hm (file w) Hw) as [Hi Hr]. split; [exact Hi |]. split; [lia |].
  destruct (fst (m (file w))); [split; [exact Hr | discriminate] | exact Hr].
Qed.

Lemma sound_for_each {A} (l : list A) (body : A -> IO unit) :
  (forall x, sound Inv E false (fun _ => True) (body x)) ->
  sound Inv E false (fun _ => True) (for_each l body).
Proof.
  intros Hbody. induction l as [|x l IH]; cbn [for_each].
  - now apply sound_ret.
  - eapply sound_then; [apply Hbody | intros _ _; exact IH].
Qed.

Lemma sound_print_numbered rows : forall index,
  sound Inv E false (fun _ => True) (print_numbered index rows).
Proof.
  induction rows as [|row rows IH]; intros index; cbn [print_numbered].
  - now apply sound_ret.
  - eapply sound_then; [apply sound_print | intros _ _; apply IH].
Qed.

Lemma sound_check_date : sound Inv E true (fun _ => True) check_date_input.
Proof.
  apply sound_loop. eapply sound_first; [apply sound_input |].
  intros line _. destruct (matches DATE_PATTERN line).
  - now apply sound_ret.
  - eapply sound_then; [apply sound_say | intros _ _; now apply sound_ret].
Qed.

Hypothesis amount_ok : forall s,
  matches AMOUNT_PATTERN s = true ->
  match int_of_text s with Ok n => Good n | Raise e => E e end.

Lemma sound_check_amount category :
  sound Inv E true Good (check_amount_input category).
Proof.
  apply sound_loop. eapply sound_first; [apply sound_input |].
  intros line _. destruct (matches AMOUNT_PATTERN line) eqn:Hm.
  - apply amount_ok in Hm. eapply sound_then with (P := Good).
    + intros w Hw. apply ends_of_result.
      destruct (int_of_text line); repeat split; auto. discriminate.
    + intros n Hn. now apply sound_ret.
  - eapply sound_then; [apply sound_say | intros _ _; now apply sound_ret].
Qed.

Hypothesis load_ok : forall st, Inv st ->
  Inv (snd (load_transactions st))
  /\ match fst (load_transactions st) with Ok _ => True | Raise e => E e end.
Hypothesis balance_ok : forall st, Inv st ->
  Inv (snd (show_balance st))
  /\ match fst (show_balance st) with Ok _ => True | Raise e => E e end.
Hypothesis expenses_ok : forall st, Inv st ->
  Inv (snd (show_expenses st))
  /\ match fst (show_expenses st) with Ok _ => True | Raise e => E e end.
Hypothesis profit_ok : forall st, Inv st ->
  Inv (snd (show_profit st))
  /\ match fst (show_profit st) with Ok _ => True | Raise e => E e end.
Hypothesis search_ok : forall key query st,
  key = utf8 "category" \/ key = utf8 "date" \/ key = utf8 "amount" ->
  Inv st ->
  Inv (snd (search_transactions [(key, Str query)] st))
  /\ match fst (search_transactions [(key, Str query)] st) with
     | Ok _ => True
     | Raise e => E e
     end.
Hypothesis add_ok : forall d c n descr st,
  Good n -> c = INCOME \/ c = EXPENSE -> Inv st ->
  Inv (snd (add_transaction
              {| date := d; category := c; amount := n; description := descr |} st))
  /\ match fst (add_transaction
                  {| date := d; category := c; amount := n; description := descr |} st)
     with
     | Ok _ => True
     | Raise e => E e
     end.
Hypothesis edit_ok : forall k d c n descr st,
  Good n -> c = INCOME \/ c = EXPENSE -> Inv st ->
  Inv (snd (edit_transaction k [Str d; Str c; Int n; Str descr] st))
  /\ match fst (edit_transaction k [Str d; Str c; Int n; Str descr] st) with
     | Ok _ => True
     | Raise e => E e
     end.

Ltac quiet :=
  repeat first
    [ apply sound_ret; exact Logic.I
    | apply sound_say
    | apply sound_print
    | eapply sound_then; [first [apply sound_say | apply sound_print] | intros _ _] ].

Lemma sound_show : sound Inv E true (fun _ => True) show_command.
Proof.
  unfold show_command. apply sound_loop.
  eapply sound_then; [apply sound_say | intros _ _].
  eapply sound_then; [apply sound_say | intros _ _].
  eapply sound_then; [apply sound_say | intros _ _].
  eapply sound_first; [apply sound_request | intros c _].
  destruct (chosen c 1); [| destruct (chosen c 2); [| destruct (chosen c 3)]].
  - eapply sound_then; [apply (sound_on_file (fun _ => True)), balance_ok |].
    intros balance _. quiet.
  - eapply sound_then; [apply (sound_on_file (fun _ => True)), expenses_ok |].
    intros [transactions expenses] _. quiet.
    eapply sound_then; [apply sound_for_each; intros; apply sound_print | intros _ _].
    quiet.
  - eapply sound_then; [apply (sound_on_file (fun _ => True)), profit_ok |].
    intros [transactions profit] _. quiet.
    eapply sound_then; [apply sound_for_each; intros; apply sound_print | intros _ _].
    quiet.
  - quiet.
Qed.

Lemma sound_add : sound Inv E true (fun _ => True) add_command.
Proof.
  unfold add_command.
  eapply sound_first with (P := fun c => c = INCOME \/ c = EXPENSE).
  { apply sound_loop.
    eapply sound_then; [apply sound_say | intros _ _].
    eapply sound_then; [apply sound_say | intros _ _].
    eapply sound_first; [apply sound_request | intros c _].
    destruct (chosen c 1); [| destruct (chosen c 2)];
      apply sound_ret; auto. }
  intros category Hc.
  eapply sound_then; [apply sound_relax, sound_check_amount |].
  intros amount Hn.
  eapply sound_then; [apply sound_relax, sound_input |].
  intros line _. cbv zeta.
  eapply sound_then; [apply sound_relax, sound_check_date |].
  intros date _.
  eapply sound_then;
    [apply (sound_on_file (fun _ => True)); intros st Hst; now apply add_ok |].
  intros _ _. quiet.
Qed.

Lemma sound_edit : sound Inv E false (fun _ => True) edit_command.
Proof.
  unfold edit_command.
  eapply sound_then; [apply (sound_on_file (fun _ => True)), load_ok |].
  intros transactions _. cbv zeta. quiet.
  eapply sound_then; [apply sound_print_numbered | intros _ _].
  eapply sound_then with (P := fun _ => True).
  { apply sound_relax, sound_loop.
    eapply sound_first; [apply sound_input | intros line _].
    destruct (check_transaction_number_input line _); quiet. }
  intros _ _.
  eapply sound_then with (P := fun p => snd p = INCOME \/ snd p = EXPENSE).
  { apply sound_relax, sound_loop.
    eapply sound_then; [apply sound_say | intros _ _].
    eapply sound_then; [apply sound_say | intros _ _].
    eapply sound_first; [apply sound_request | intros c _].
    destruct c as [k|]; [| now apply sound_ret].
    destruct (k =? 1)%Z; [| destruct (k =? 2)%Z]; apply sound_ret; simpl; auto. }
  intros [sub_command new_category] Hc. simpl in Hc.
  eapply sound_then; [apply sound_relax, sound_check_date |].
  intros date _.
  eapply sound_then; [apply sound_relax, sound_check_amount |].
  intros amount Hn.
  eapply sound_then; [apply sound_relax, sound_input |].
  intros description _. cbv zeta.
  eapply sound_then;
    [apply (sound_on_file (fun _ => True)); intros st Hst; now apply edit_ok |].
  intros _ _. quiet.
Qed.

Lemma sound_search : sound Inv E true (fun _ => True) search_command.
Proof.
  unfold search_command.
  eapply sound_first
    with (P := fun key => key = utf8 "category" \/ key = utf8 "date" \/ key = utf8 "amount").
  { apply sound_loop.
    eapply sound_then; [apply sound_say | intros _ _].
    eapply sound_then; [apply sound_say | intros _ _].
    eapply sound_then; [apply sound_say | intros _ _].
    eapply sound_first; [apply sound_request | intros c _].
    destruct (chosen c 1); [| destruct (chosen c 2); [| destruct (chosen c 3)]];
      apply sound_ret; auto. }
  intros key Hkey.
  eapply sound_then; [apply sound_relax, sound_input |].
  intros search_query _. cbv zeta.
  eapply sound_then;
    [apply (sound_on_file (fun _ => True)); intros st Hst; now apply search_ok |].
  intros search_result _. quiet.
  eapply sound_then; [apply sound_for_each; intros; apply sound_print | intros _ _].
  quiet.
Qed.

Lemma sound_main : sound Inv E false (fun _ => True) main.
Proof.
  unfold main. eapply sound_then; [apply sound_say | intros _ _].
  apply sound_relax, sound_loop.
  do 6 (eapply sound_then; [apply sound_say | intros _ _]).
  eapply sound_first; [apply sound_request | intros command _].
  destruct (chosen command 1);
    [| destruct (chosen command 2);
       [| destruct (chosen command 3);
          [| destruct (chosen command 4); [| destruct (chosen command 5)]]]].
  - eapply sound_then; [apply sound_relax, sound_show |].
    intros _ _. now apply sound_ret.
  - eapply sound_then; [apply sound_relax, sound_add |].
    intros _ _. now apply sound_ret.
  - eapply sound_then; [apply sound_edit |].
    intros _ _. now apply sound_ret.
  - eapply sound_then; [apply sound_relax, sound_search |].
    intros _ _. now apply sound_ret.
  - quiet.
  - now apply sound_ret.
Qed.
End Sound.

Section Tidy.
Context {U : Unicode}.

Lemma parse_digits ds :
  ds <> [] -> forallb ascii_digit ds = true ->
  exists x, parse_decimal ds = Some (x, []).
Proof.
  intros Hne Hds. unfold parse_decimal.
  rewrite (split_sign_digits ds Hds), (span_digits ds Hds). cbv beta iota.
  rewrite app_nil_r. destruct ds as [|c ds]; [congruence |].
  cbv beta iota. destruct (digits_value (c :: ds)); eexists; reflexivity.
Qed.

Lemma float_of_numeral n : (0 <= n)%Z -> exists x, float_of_text (str_of_int n) = Ok x.
Proof.
  intros Hn.
  assert (Hs : exists m, str_of_int n = str_of_N m)
    by (destruct n as [|p|p]; [exists 0 | exists (N.pos p) | lia]; reflexivity).
  destruct Hs as [m ->]. destruct (str_of_N_spec m) as (Hne & Hall & _).
  destruct (parse_digits _ Hne Hall) as [x Hx]. exists x.
  unfold float_of_text. rewrite numeric_text_plain by (auto using digits_plain).
  now rewrite Hx.
Qed.

Lemma tidy_amount row : tidy_row row -> exists x, amount_of row = Ok x.
Proof.
  intros (d & c & n & descr & -> & Hn & _).
  destruct (float_of_numeral n Hn) as [x Hx]. exists x.
  unfold amount_of. cbn. exact Hx.
Qed.

Lemma tidy_length row : tidy_row row -> length row = 4%nat.
Proof. now intros (d & c & n & descr & -> & _). Qed.

Lemma tidy_balance rows : forall balance,
  Forall tidy_row rows -> exists b, balance_loop rows balance = Ok b.
Proof.
  induction rows as [|row rows IH]; intros balance Hrows; [now exists balance |].
  inversion Hrows as [|? ? Hrow Hrest]; subst.
  destruct (tidy_amount row Hrow) as [x Hx].
  rewrite (balance_step row rows balance x Hx). now apply IH.
Qed.

Lemma tidy_category label rows : forall total kept,
  Forall tidy_row rows -> exists r, category_loop label rows total kept = Ok r.
Proof.
  induction rows as [|row rows IH]; intros total kept Hrows; [now eexists |].
  inversion Hrows as [|? ? Hrow Hrest]; subst.
  rewrite category_step by (rewrite (tidy_length row Hrow); lia).
  destruct (has_field 1 label row); [| now apply IH].
  destruct (tidy_amount row Hrow) as [x ->]. now apply IH.
Qed.

Lemma tidy_loads st :
  tidy st ->
  st = None
  \/ exists rows, fst (load_transactions st) = Ok rows /\ Forall tidy_row rows.
Proof.
  intros [-> | (rows & -> & Hrows)]; [now left | right].
  exists (map as_text rows). now rewrite load_written.
Qed.

Lemma reads_only {A} (f : list (list value) -> result A) st :
  snd ((transactions ← load_transactions; lift (f transactions)) st) = st.
Proof.
  unfold mbind, M_bind, lift. pose proof (load_state st) as Hst.
  destruct (load_transactions st) as [[rows|e] st']; simpl in *; now subst.
Qed.

Lemma tidy_reads {A} (f : list (list value) -> result A) st :
  tidy st ->
  (forall rows, Forall tidy_row rows -> exists a, f rows = Ok a) ->
  tidy (snd ((transactions ← load_transactions; lift (f transactions)) st))
  /\ match fst ((transactions ← load_transactions; lift (f transactions)) st) with
     | Ok _ => True
     | Raise e => expected e
     end.
Proof.
  intros Hst Hf. rewrite reads_only. split; [exact Hst |].
  destruct (tidy_loads st Hst) as [-> | (rows & Hload & Hrows)].
  - right. now left.
  - rewrite (after_load f st rows Hload). simpl.
    now destruct (Hf rows Hrows) as [a ->].
Qed.

Lemma tidy_text d c n descr :
  (0 <= n)%Z -> c = INCOME \/ c = EXPENSE ->
  tidy_row (as_text [Str d; Str c; Int n; Str descr]).
Proof. intros Hn Hc. now exists d, c, n, descr. Qed.

Lemma tidy_add d c n descr st :
  (0 <= n)%Z -> c = INCOME \/ c = EXPENSE -> tidy st ->
  tidy (snd (add_transaction
               {| date := d; category := c; amount := n; description := descr |} st)).
Proof.
  intros Hn Hc [-> | (rows & -> & Hrows)]; right.
  - exists [[Str d; Str c; Int n; Str descr]]. split.
    + unfold add_transaction, append_file, writerows. simpl. now rewrite app_nil_r.
    + constructor; [now apply tidy_text | constructor].
  - exists (rows ++ [[Str d; Str c; Int n; Str descr]]). split.
    + unfold add_transaction, append_file, writerows. simpl.
      rewrite flat_map_app. simpl. now rewrite app_nil_r.
    + rewrite map_app. apply Forall_app. split; [exact Hrows |].
      constructor; [now apply tidy_text | constructor].
Qed.

Lemma setitem_raises {A} (l : list A) i x e : setitem l i x = Raise e -> e = IndexError.
Proof. unfold setitem. destruct (norm_index l i); [discriminate | now intros [= <-]]. Qed.

Lemma setitem_insert {A} (l : list A) i x l' :
  setitem l i x = Ok l' -> exists j, l' = <[j := x]> l.
Proof.
  unfold setitem. destruct (norm_index l i) as [j|]; [| discriminate].
  intros [= <-]. now exists j.
Qed.

Lemma tidy_edit k d c n descr st :
  (0 <= n)%Z -> c = INCOME \/ c = EXPENSE -> tidy st ->
  tidy (snd (edit_transaction k [Str d; Str c; Int n; Str descr] st))
  /\ match fst (edit_transaction k [Str d; Str c; Int n; Str descr] st) with
     | Ok _ => True
     | Raise e => expected e
     end.
Proof.
  intros Hn Hc Hst. destruct (tidy_loads st Hst) as [-> | (rows & Hload & Hrows)].
  - split; [now left | right; now left].
  - rewrite (edit_loaded st rows _ _ Hload).
    destruct (setitem rows (k - 1) _) as [rows'|e] eqn:Hset.
    + split; [| exact Logic.I]. right. exists rows'. split; [reflexivity |].
      apply setitem_insert in Hset as [j ->]. rewrite map_insert.
      rewrite (loaded_text st rows Hload).
      apply Forall_insert; [exact Hrows | now apply tidy_text].
    + split; [exact Hst |]. apply setitem_raises in Hset as ->. right. now right.
Qed.
End Tidy.

(** X21. Whatever the file holds and whatever is typed, the script ends:
    it returns after command 5, or an exception leaves it.  No loop of it
    goes round without reading a line, and no more lines are read than
    the input has. *)
Theorem main_always_ends (U : Unicode) (w : Console.world) :
  exists r w',
    Console.main w = Some (r, w')
    /\ (length (Console.stdin w') <= length (Console.stdin w))%nat.
Proof.
  destruct (sound_main (fun _ => True) (fun _ => True) (fun _ => True))
    with (w := w) as (r & w' & Hrun & _ & Hlen & _);
    try exact Logic.I; try (intros; split; [exact Logic.I | now destruct (fst _)]).
  - intros s _. now destruct (int_of_text s).
  - now exists r, w'.
Qed.



(** ** The tests *)

Section TestCase.
Context {U : Unicode}.

Lemma writerows_snoc rows row :
  writerows rows ++ writerow row = writerows (rows ++ [row]).
Proof. unfold writerows. rewrite flat_map_app. simpl. now rewrite app_nil_r. Qed.

Lemma records_of_written rows : records_of (Some (writerows rows)) = map as_text rows.
Proof. unfold records_of. now rewrite load_written. Qed.

Lemma add_written t rows :
  add_transaction t (Some (writerows rows))
  = (Ok tt, Some (writerows (rows ++ [row_of t]))).
Proof.
  unfold add_transaction, append_file. simpl default.
  now rewrite <- writerows_snoc.
Qed.

Lemma test_add_after rows :
  rows <> [] ->
  exists rows', Tests.test_add_transaction (Some (writerows rows))
                = (Ok Tests.Failed, Some (writerows rows')).
Proof.
  intros Hne. eexists.
  unfold Tests.test_add_transaction. cbv zeta.
  unfold mbind at 1, M_bind at 1. rewrite add_written.
  unfold mbind at 1, M_bind at 1. rewrite load_written.
  unfold Tests.assertEqual.
  replace (value_eqb _ (Int 1)) with false; [reflexivity |].
  symmetry. apply Z.eqb_neq. rewrite length_map, length_app. cbn [length].
  destruct rows; [congruence | cbn [length]; lia].
Qed.

Lemma test_edit_after rows :
  rows <> [] ->
  exists rows', Tests.test_edit_transaction (Some (writerows rows))
                = (Ok Tests.Failed, Some (writerows rows')).
Proof.
  intros Hne. eexists.
  unfold Tests.test_edit_transaction. cbv zeta.
  unfold mbind at 1, M_bind at 1. rewrite add_written.
  unfold mbind at 1, M_bind at 1. rewrite add_written.
  unfold mbind at 1, M_bind at 1.
  rewrite (edit_loaded _ _ 1 _ (f_equal fst (load_written _))).
  rewrite setitem_in_range
    by (rewrite length_map, !length_app; cbn [length]; lia).
  unfold mbind at 1, M_bind at 1. rewrite load_written.
  unfold Tests.assertEqual.
  replace (value_eqb _ (Int 2)) with false; [reflexivity |].
  symmetry. apply Z.eqb_neq.
  rewrite length_map, length_insert, length_map, !length_app. cbn [length].
  destruct rows; [congruence | cbn [length]; lia].
Qed.
End TestCase.





(** ** From the records added to the balance *)

Section Added.
Context {U : Unicode}.
Local Open Scope Z_scope.

(** The decimal text of a number reads as the float nearest to it. *)
Lemma float_of_numeral_value n :
  0 <= n -> float_of_text (str_of_int n) = Ok (float_of_Z n).
Proof.
  intros Hn.
  assert (Hs : exists m, str_of_int n = str_of_N m /\ n = Z.of_N m)
    by (destruct n as [|p|p]; [exists 0%N | exists (N.pos p) | lia]; now split).
  destruct Hs as (m & -> & ->). destruct (str_of_N_spec m) as (Hne & Hall & Hval).
  unfold float_of_text. rewrite numeric_text_plain by (auto using digits_plain).
  unfold parse_decimal.
  rewrite (split_sign_digits _ Hall), (span_digits _ Hall). cbv beta iota.
  rewrite app_nil_r. destruct (str_of_N m) as [|c ds]; [congruence |].
  rewrite Hval. destruct m as [|p]; [reflexivity |].
  unfold round_decimal. change (0 - Z.of_nat (length (@nil char))) with 0.
  change (0 <=? 0) with true. cbv iota.
  change (Z.to_pos (10 ^ 0)) with 1%positive. now rewrite Pos.mul_1_r.
Qed.

Lemma amount_of_added t :
  0 <= amount t -> amount_of (as_text (row_of t)) = Ok (float_of_Z (amount t)).
Proof. intros Hn. unfold amount_of. cbn. now apply float_of_numeral_value. Qed.

Lemma after_adding_written ts : forall rows,
  after_adding ts (Some (writerows rows)) = Some (writerows (rows ++ map row_of ts)).
Proof.
  unfold after_adding. induction ts as [|t ts IH]; intros rows; cbn [fold_left map].
  - now rewrite app_nil_r.
  - rewrite add_written. cbn [snd]. rewrite IH. now rewrite <- app_assoc.
Qed.

Lemma after_adding_first t ts :
  after_adding (t :: ts) None = Some (writerows (map row_of (t :: ts))).
Proof.
  assert (Hfirst : snd (add_transaction t None) = Some (writerows [row_of t])).
  { unfold add_transaction, append_file, writerows. simpl. now rewrite app_nil_r. }
  change (after_adding (t :: ts) None)
    with (after_adding ts (snd (add_transaction t None))).
  rewrite Hfirst. apply (after_adding_written ts [row_of t]).
Qed.

Lemma has_field_added label t :
  has_field 1 label (as_text (row_of t)) = text_eqb (category t) label.
Proof. reflexivity. Qed.

Lemma net_of_added ts :
  category_total INCOME (map as_text (map row_of ts)) (map amount ts)
  - category_total EXPENSE (map as_text (map row_of ts)) (map amount ts)
  = fold_right Z.add 0 (map signed_amount ts).
Proof.
  induction ts as [|t ts IH]; [reflexivity |].
  simpl map. cbn [category_total fold_right]. rewrite <- IH, !has_field_added.
  unfold signed_amount.
  destruct (text_eqb (category t) INCOME) eqn:Hi.
  - apply text_eqb_eq in Hi. rewrite Hi.
    change (text_eqb INCOME EXPENSE) with false. cbv iota. lia.
  - destruct (text_eqb (category t) EXPENSE); lia.
Qed.

Lemma amounts_of_added ts :
  Forall (fun t => 0 <= amount t) ts ->
  Forall2 (fun row n => amount_of row = Ok (float_of_Z n) /\ 0 <= n)
          (map as_text (map row_of ts)) (map amount ts).
Proof.
  induction 1 as [|t ts Ht _ IH]; simpl; constructor; [| exact IH].
  split; [now apply amount_of_added | exact Ht].
Qed.
End Added.





(** X27. The script changes the file through [add_transaction] and
    [edit_transaction] only: started on a file the program wrote, or on
    none, it leaves a file the program wrote, however it ends. *)
Theorem main_keeps_written (U : Unicode) (w : Console.world) :
  written (Console.file w) ->
  exists r w', Console.main w = Some (r, w') /\ written (Console.file w').
Proof.
  intros Hw.
  destruct (sound_main written (fun _ => True) (fun _ => True))
    with (w := w) as (r & w' & Hrun & Hw' & _).
  - exact Logic.I.
  - intros s _. now destruct (int_of_text s).
  - intros st Hst. rewrite load_state. split; [exact Hst | now destruct (fst _)].
  - intros st Hst. unfold show_balance. rewrite reads_only.
    split; [exact Hst | now destruct (fst _)].
  - intros st Hst. unfold show_expenses. rewrite reads_only.
    split; [exact Hst | now destruct (fst _)].
  - intros st Hst. unfold show_profit. rewrite reads_only.
    split; [exact Hst | now destruct (fst _)].
  - intros key query st _ Hst. unfold search_transactions. rewrite reads_only.
    split; [exact Hst | now destruct (fst _)].
  - intros d c n descr st _ _ Hst. split; [now apply written_add | exact Logic.I].
  - intros k d c n descr st _ _ Hst.
    split; [now apply written_edit | now destruct (fst _)].
  - exact Hw.
  - now exists r, w'.
Qed.

(** From no file: a record added, a wrong command, and command 5. *)
Lemma main_keeps_written_witness :
  exists r w',
    @Console.main ascii_table
      (Console.World None
         (map utf8 ["2"; "1"; "500"; "food"; "2024-05-02"; "9"; "5"]%string) [])
    = Some (r, w')
    /\ written (Console.file w').
Proof.
  apply (main_keeps_written ascii_table), written_none.
Defined.
